(** * versatus-javascript: dispatcher, instruction builders and amount codec

    A shallow embedding of
    - [lib/contracts/Contract.ts]: the method-dispatch table [Contract];
    - the instruction builders ([TokenUpdateBuilder], [TokenDistributionBuilder],
      [CreateInstructionBuilder], [UpdateInstructionBuilder],
      [TransferInstructionBuilder], [BurnInstructionBuilder], [OutputBuilder]);
    - the 18-decimal amount codec ([formatAmountToHex], [formatHexToAmount]).

    JavaScript objects used as tables are finite maps together with the
    prototype they inherit from; methods that run user code live in a small
    state-and-exception monad; builder methods are state transformers over
    the builder's fields. *)

From stdpp Require Import gmap strings list.
From Stdlib Require Import NArith Ascii Lia.

Local Open Scope string_scope.
Local Open Scope list_scope.

(** ** Part I. The dispatcher, [lib/contracts/Contract.ts] *)

Module Js.

(** Values that flow through handlers: what a strategy receives as its third
    argument and what it returns or throws.  [U] stands for the values user
    code builds (Outputs and anything else), [A] for the account objects. *)
Inductive value {A U : Type} : Type :=
| VUndefined
| VString (s : string)
| VObjectOf (accountInfo : A)   (* the result of [Object(accountInfo)] *)
| VError (message : string)     (* [new Error(message)] *)
| VTypeError                    (* a TypeError raised by the engine *)
| VUser (u : U).
Arguments value : clear implicits.

(** A call either returns a value or throws one. *)
Inductive outcome {X V : Type} : Type :=
| Return (x : X)
| Throw (v : V).
Arguments outcome : clear implicits.

(** Computations of user code: they may read and write the ambient state
    [S] and may throw. *)
Definition M (S V X : Type) : Type := S -> outcome X V * S.

Definition ret {S V X} (x : X) : M S V X := fun s => (Return x, s).

Definition throw {S V X} (v : V) : M S V X := fun s => (Throw v, s).

Definition bind {S V X Y} (m : M S V X) (k : X -> M S V Y) : M S V Y :=
  fun s => match m s with
           | (Return x, s') => k x s'
           | (Throw v, s') => (Throw v, s')
           end.

End Js.

Notation "'do' x <- m ; k" := (Js.bind m (fun x => k))
  (at level 10, x name, m at level 100, k at level 200).

Module ObjectPrototype.

(** The string-keyed properties every object created by [{}] inherits from
    [Object.prototype]. [__proto__] is the accessor through which the
    prototype itself is read and replaced; the others are functions. *)
Inductive builtin : Type :=
| constructor
| toString
| toLocaleString
| valueOf
| hasOwnProperty
| isPrototypeOf
| propertyIsEnumerable
| defineGetter
| defineSetter
| lookupGetter
| lookupSetter.

Definition proto_key : string := "__proto__".

Definition function_named (k : string) : option builtin :=
  if String.eqb k "constructor" then Some constructor
  else if String.eqb k "toString" then Some toString
  else if String.eqb k "toLocaleString" then Some toLocaleString
  else if String.eqb k "valueOf" then Some valueOf
  else if String.eqb k "hasOwnProperty" then Some hasOwnProperty
  else if String.eqb k "isPrototypeOf" then Some isPrototypeOf
  else if String.eqb k "propertyIsEnumerable" then Some propertyIsEnumerable
  else if String.eqb k "__defineGetter__" then Some defineGetter
  else if String.eqb k "__defineSetter__" then Some defineSetter
  else if String.eqb k "__lookupGetter__" then Some lookupGetter
  else if String.eqb k "__lookupSetter__" then Some lookupSetter
  else None.

(** A name that reaches something on a fresh [{}]: one of the functions
    above, or the [__proto__] accessor. *)
Definition inherited (k : string) : bool :=
  String.eqb k proto_key || bool_decide (is_Some (function_named k)).

End ObjectPrototype.

Module Contract.
Import Js.

Section Dispatch.
Context {A P U S : Type}.

#[local] Abbreviation value := (Js.value A U).
#[local] Abbreviation M := (Js.M S value).

(** [contractInput: { contractFn: string }] with its method-specific fields. *)
Record ContractInput : Type := mkContractInput {
  contractFn : string;
  fields : P
}.

(** [Input], unpacked by [start]. *)
Record Input : Type := mkInput {
  accountInfo : A;
  contractInput : ContractInput
}.

(** A registered strategy is a JavaScript function; the dispatcher calls it
    with two arguments (the third is then [undefined]) and a composed
    strategy calls the newer one with three. *)
Definition strategy : Type := A -> ContractInput -> value -> M value.

(** What a property read on the table can produce. *)
Inductive property : Type :=
| Undefined
| Strategy (f : strategy)                   (* a function stored by a registration *)
| Builtin (b : ObjectPrototype.builtin)     (* a function of [Object.prototype] *)
| ObjectPrototypeItself.                    (* the non-callable object [Object.prototype] *)

(** [methodStrategies: { [key: string]: Function }], initialised to [{}]:
    the object's own properties and its prototype. [None] is
    [Object.prototype]; assigning a function to [__proto__] installs that
    function as the prototype instead of creating an own property. *)
Record t : Type := mk {
  methodStrategies : gmap string strategy;
  prototype : option strategy
}.

(** [constructor() { this.methodStrategies = {} }] *)
Definition new : t := {| methodStrategies := ∅; prototype := None |}.

(** Property read [this.methodStrategies[k]]. The result is [None] where
    the read would have to consult the properties of a function object
    installed as prototype, which this model does not describe. *)
Definition get (this : t) (k : string) : option property :=
  if String.eqb k ObjectPrototype.proto_key then
    Some (match prototype this with
          | None => ObjectPrototypeItself
          | Some f => Strategy f
          end)
  else
    match methodStrategies this !! k with
    | Some f => Some (Strategy f)
    | None =>
        match prototype this with
        | None => Some (match ObjectPrototype.function_named k with
                        | Some b => Builtin b
                        | None => Undefined
                        end)
        | Some _ => None
        end
    end.

(** The table once a write of [f] at [k] has gone through: [__proto__]
    reaches the accessor of [Object.prototype], which replaces the
    prototype; any other name becomes, or stays, an own property. *)
Definition set (this : t) (k : string) (f : strategy) : t :=
  if String.eqb k ObjectPrototype.proto_key then
    {| methodStrategies := methodStrategies this; prototype := Some f |}
  else
    {| methodStrategies := <[k := f]> (methodStrategies this);
       prototype := prototype this |}.

(** Whether this model describes the write at [k]. A name that is not an
    own property is looked up along the prototype chain before it is
    written: the properties of [Object.prototype] are writable, those of a
    function installed as prototype ([length] and [name] are read-only,
    and the strict-mode write then throws) are not described here. *)
Definition assignable (this : t) (k : string) : bool :=
  String.eqb k ObjectPrototype.proto_key
  || bool_decide (is_Some (methodStrategies this !! k))
  || match prototype this with
     | None => true
     | Some _ => false
     end.

(** Property write [this.methodStrategies[k] = f]; [None] where the write
    would have to consult the properties of a function object installed as
    prototype. *)
Definition assign (this : t) (k : string) (f : strategy) : option t :=
  if assignable this k then Some (set this k f) else None.

(** JavaScript truthiness of a property: every object is truthy. *)
Definition truthy (p : property) : bool :=
  match p with
  | Undefined => false
  | _ => true
  end.

(** Calling a function of [Object.prototype] as a plain function from
    strict code, so with [this] undefined, on [(accountInfo, contractInput)].
    [accountInfo] is an account object of the input envelope. *)
Definition call_builtin (b : ObjectPrototype.builtin)
    (accountInfo : A) (contractInput : ContractInput) : M value :=
  match b with
  | ObjectPrototype.toString => ret (VString "[object Undefined]")
  | ObjectPrototype.constructor => ret (VObjectOf accountInfo)
  | _ => throw VTypeError
  end.

(** The call [p(accountInfo, contractInput, third)]. *)
Definition call (p : property) (accountInfo : A)
    (contractInput : ContractInput) (third : value) : M value :=
  match p with
  | Strategy f => f accountInfo contractInput third
  | Builtin b => call_builtin b accountInfo contractInput
  | Undefined | ObjectPrototypeItself => throw VTypeError
  end.

Definition unknown_method (contractFn : string) : string :=
  String.append "Unknown method: " contractFn.

(** [executeMethod(accountInfo, contractInput)] *)
Definition executeMethod (this : t) (accountInfo : A)
    (contractInput : ContractInput) : option (M value) :=
  let contractFn := contractFn contractInput in
  strategy ← get this contractFn;
  Some (if truthy strategy
        then call strategy accountInfo contractInput VUndefined
        else throw (VError (unknown_method contractFn))).

(** [start(input)] *)
Definition start (this : t) (input : Input) : option (M value) :=
  let accountInfo := accountInfo input in
  let contractInput := contractInput input in
  executeMethod this accountInfo contractInput.

(** The arrow function built by an extending registration. *)
Definition composed (originalStrategy : property) (newStrategyFn : strategy)
    : strategy :=
  fun accountInfo contractInput _ =>
    do originalResult <- call originalStrategy accountInfo contractInput VUndefined;
    newStrategyFn accountInfo contractInput originalResult.

(** [addOrExtendMethodStrategy(methodName, newStrategyFn, extend = false)];
    [&&] reads the table only when [extend] is true. *)
Definition addOrExtendMethodStrategy (this : t) (methodName : string)
    (newStrategyFn : strategy) (extend : bool) : option t :=
  if extend then
    existing ← get this methodName;
    if truthy existing then
      originalStrategy ← get this methodName;
      assign this methodName (composed originalStrategy newStrategyFn)
    else
      assign this methodName newStrategyFn
  else
    assign this methodName newStrategyFn.

(** A setup phase that extends one name with a list of handlers, first
    handler first. *)
Fixpoint extendAll (this : t) (methodName : string) (handlers : list strategy)
    : option t :=
  match handlers with
  | [] => Some this
  | newStrategyFn :: rest =>
      this' ← addOrExtendMethodStrategy this methodName newStrategyFn true;
      extendAll this' methodName rest
  end.

(** One more stage on a computation: run what came before, then the handler
    on its result. *)
Definition stage (accountInfo : A) (contractInput : ContractInput)
    (previous : M value) (h : strategy) : M value :=
  do r <- previous; h accountInfo contractInput r.

End Dispatch.

Arguments ContractInput : clear implicits.
Arguments Input : clear implicits.
Arguments strategy : clear implicits.
Arguments property : clear implicits.
Arguments t : clear implicits.

(** For concrete runs: a handler that returns its third argument, a fresh
    table, and an input that asks for ["mint"]. *)
Definition echo : strategy unit unit unit unit :=
  fun _ _ third => ret third.

Definition fresh : t unit unit unit unit := new.

Definition mint : ContractInput unit := mkContractInput "mint" tt.

(** A handler that throws, and an input that asks for ["burn"]. *)
Definition failing : strategy unit unit unit unit :=
  fun _ _ _ => throw (VError "insufficient balance").

Definition burn : ContractInput unit := mkContractInput "burn" tt.

End Contract.

(** ** Part II. The instruction model and its builders *)

Module Json.

(** Wire values. *)
#[warnings="-register-all"]
Inductive t : Type :=
| Null
| Str (s : string)
| Arr (items : list t)
| Obj (members : list (string * t)).

(** The keys of a wire object, in order. *)
Definition keys (j : t) : list string :=
  match j with
  | Obj members => map fst members
  | _ => []
  end.

Definition nullable {T} (f : T -> t) (o : option T) : t :=
  match o with
  | Some x => f x
  | None => Null
  end.

End Json.

(** Classes of [lib/programs] serialise themselves with a [toJson()] method. *)
Class ToJson (T : Type) : Type := toJson : T -> Json.t.

(** A slot that TypeScript types as the class [T] holds, at run time, either
    an instance of [T] or the plain wire value that [toJson() as T] left
    there. [instanceof T] tells them apart. *)
Inductive slot (T : Type) : Type :=
| Instance (x : T)
| Plain (j : Json.t).
Arguments Instance {T} x.
Arguments Plain {T} j.

Definition instanceof {T} (s : slot T) : bool :=
  match s with
  | Instance _ => true
  | Plain _ => false
  end.

#[global] Instance slot_toJson {T} `{ToJson T} : ToJson (slot T) :=
  fun s => match s with
           | Instance x => toJson x
           | Plain j => j
           end.

(** Modelled from the spec: the class [Address] of
    [lib/programs/Address-Namespace], which wraps an opaque identifier
    string. *)
Record Address : Type := mkAddress { identifier : string }.

#[global] Instance Address_toJson : ToJson Address :=
  fun a => Json.Str (identifier a).

(** Modelled from the spec: the class [AddressOrNamespace] of
    [lib/programs/Address-Namespace], a closed two-variant identity whose
    wire form is exactly one of [{ address }] or [{ namespace }]. *)
Inductive AddressOrNamespace : Type :=
| OfAddress (a : Address)
| OfNamespace (label : string).

#[global] Instance AddressOrNamespace_toJson : ToJson AddressOrNamespace :=
  fun v => match v with
           | OfAddress a => Json.Obj [("address", toJson a)]
           | OfNamespace label => Json.Obj [("namespace", Json.Str label)]
           end.

(** The classes of [lib/programs/Token] that the builders only carry around:
    update fields and update aggregates, each with its [toJson()], and the
    untyped [inputs] of an [Outputs]. *)
Class Programs : Type := {
  TokenUpdateField : Type;
  TokenUpdateField_toJson :: ToJson TokenUpdateField;
  TokenOrProgramUpdate : Type;
  TokenOrProgramUpdate_toJson :: ToJson TokenOrProgramUpdate;
  Inputs : Type
}.

(** The instance in which update fields, update aggregates and inputs are
    carried as wire values; it serves for concrete examples. *)
Definition wire_programs : Programs :=
  {| TokenUpdateField := Json.t;
     TokenUpdateField_toJson := fun j => j;
     TokenOrProgramUpdate := Json.t;
     TokenOrProgramUpdate_toJson := fun j => j;
     Inputs := Json.t |}.

Definition sample_update : @TokenOrProgramUpdate wire_programs :=
  Json.Str "update".

Module TokenDistribution.
Section Class.
Context `{Programs}.

(** Modelled from the spec: the class [TokenDistribution]; its constructor
    stores its five arguments. *)
Record t : Type := mk {
  programId : option (slot AddressOrNamespace);
  to : option (slot AddressOrNamespace);
  amount : option string;
  tokenIds : list string;
  updateFields : list (slot TokenUpdateField)
}.

#[global] Instance t_toJson : ToJson t :=
  fun d => Json.Obj
    [("programId", Json.nullable toJson (programId d));
     ("to", Json.nullable toJson (to d));
     ("amount", Json.nullable Json.Str (amount d));
     ("tokenIds", Json.Arr (map Json.Str (tokenIds d)));
     ("updateFields", Json.Arr (map toJson (updateFields d)))].

End Class.
End TokenDistribution.

Module CreateInstruction.
Section Class.
Context `{Programs}.

(** Modelled from the spec: the class [CreateInstruction]; its constructor
    stores its six arguments. *)
Record t : Type := mk {
  programNamespace : option (slot AddressOrNamespace);
  programId : option (slot AddressOrNamespace);
  programOwner : option Address;
  totalSupply : option string;
  initializedSupply : option string;
  distribution : list TokenDistribution.t
}.

#[global] Instance t_toJson : ToJson t :=
  fun c => Json.Obj
    [("programNamespace", Json.nullable toJson (programNamespace c));
     ("programId", Json.nullable toJson (programId c));
     ("programOwner", Json.nullable toJson (programOwner c));
     ("totalSupply", Json.nullable Json.Str (totalSupply c));
     ("initializedSupply", Json.nullable Json.Str (initializedSupply c));
     ("distribution", Json.Arr (map toJson (distribution c)))].

End Class.
End CreateInstruction.

Module UpdateInstruction.
Section Class.
Context `{Programs}.

(** Modelled from the spec: the class [UpdateInstruction]; its constructor
    stores the list of updates. *)
Record t : Type := mk {
  updates : list TokenOrProgramUpdate
}.

#[global] Instance t_toJson : ToJson t :=
  fun u => Json.Obj [("updates", Json.Arr (map toJson (updates u)))].

End Class.
End UpdateInstruction.

Module TransferInstruction.

(** Modelled from the spec: the class [TransferInstruction]; its
    constructor stores its five arguments. *)
Record t : Type := mk {
  token : option Address;
  transferFrom : option (slot AddressOrNamespace);
  transferTo : option (slot AddressOrNamespace);
  amount : option string;
  ids : list string
}.

#[global] Instance t_toJson : ToJson t :=
  fun x => Json.Obj
    [("token", Json.nullable toJson (token x));
     ("from", Json.nullable toJson (transferFrom x));
     ("to", Json.nullable toJson (transferTo x));
     ("amount", Json.nullable Json.Str (amount x));
     ("ids", Json.Arr (map Json.Str (ids x)))].

End TransferInstruction.

Module BurnInstruction.

(** Modelled from the spec: the class [BurnInstruction]; its constructor
    stores its six arguments. *)
Record t : Type := mk {
  caller : option Address;
  programId : option (slot AddressOrNamespace);
  token : option Address;
  burnFrom : option (slot AddressOrNamespace);
  amount : option string;
  tokenIds : list string
}.

#[global] Instance t_toJson : ToJson t :=
  fun x => Json.Obj
    [("caller", Json.nullable toJson (caller x));
     ("programId", Json.nullable toJson (programId x));
     ("token", Json.nullable toJson (token x));
     ("burnFrom", Json.nullable toJson (burnFrom x));
     ("amount", Json.nullable Json.Str (amount x));
     ("tokenIds", Json.Arr (map Json.Str (tokenIds x)))].

End BurnInstruction.

Module Instruction.
Section Class.
Context `{Programs}.

(** The payload an [Instruction] owns. *)
Inductive payload : Type :=
| Create (c : CreateInstruction.t)
| Update (u : UpdateInstruction.t)
| Transfer (x : TransferInstruction.t)
| Burn (x : BurnInstruction.t).

(** Modelled from the spec: the class [Instruction], built by
    [new Instruction(kind, value)] from a tag string and a payload; nothing
    in the class ties the tag to the payload's variant. *)
Record t : Type := mk {
  kind : string;
  value : payload
}.

#[global] Instance payload_toJson : ToJson payload :=
  fun p => match p with
           | Create c => toJson c
           | Update u => toJson u
           | Transfer x => toJson x
           | Burn x => toJson x
           end.

(** Modelled from the spec: the wire shape of an instruction,
    [{ <tag>: <payload> }]. *)
#[global] Instance t_toJson : ToJson t :=
  fun i => Json.Obj [(kind i, toJson (value i))].

End Class.
End Instruction.

Module Outputs.
Section Class.
Context `{Programs}.

(** Modelled from the spec: the class [Outputs], built by
    [new Outputs(inputs, instructions)]. *)
Record t : Type := mk {
  inputs : option Inputs;
  instructions : list Instruction.t
}.

End Class.
End Outputs.

(** Builder methods: the builder's fields before the call go in, the
    method's result and the fields after the call come out. A setter's
    result is [this], the very builder whose fields are returned, so it is
    not repeated in the result. *)
Definition method (B X : Type) : Type := B -> X * B.

(** The fields after a call, and the value it returned. *)
Definition after {B X} (m : method B X) (this : B) : B := snd (m this).
Definition returned {B X} (m : method B X) (this : B) : X := fst (m this).

(** A chain of calls on one builder, first call first. *)
Definition chain {B} (calls : list (method B unit)) (this : B) : B :=
  fold_left (fun b m => after m b) calls this.

(** An identity slot that holds no class instance: null or a plain wire
    value. *)
Definition flat {T} (v : option (slot T)) : Prop :=
  match v with
  | Some (Instance _) => False
  | _ => True
  end.

Module TokenUpdateBuilder.
Section Class.
Context `{Programs}.

Record t : Type := mk {
  account : option (slot AddressOrNamespace);
  token : option (slot AddressOrNamespace);
  updates : list TokenOrProgramUpdate
}.

Definition new : t := {| account := None; token := None; updates := [] |}.

Definition addUpdateAccountAddress (account : slot AddressOrNamespace)
    : method t unit :=
  fun this => (tt, {| account := Some account; token := token this;
                      updates := updates this |}).

Definition addTokenAddress (tokenAddress : slot AddressOrNamespace)
    : method t unit :=
  fun this => (tt, {| account := account this; token := Some tokenAddress;
                      updates := updates this |}).

Definition addUpdateField (updateField : TokenOrProgramUpdate)
    : method t unit :=
  fun this => (tt, {| account := account this; token := token this;
                      updates := updates this ++ [updateField] |}).

Definition build : method t Instruction.t :=
  fun this =>
    (Instruction.mk "update"
       (Instruction.Update
          (UpdateInstruction.mk (map (fun update => update) (updates this)))),
     this).

Inductive call : Type :=
| AddUpdateAccountAddress (account : slot AddressOrNamespace)
| AddTokenAddress (tokenAddress : slot AddressOrNamespace)
| AddUpdateField (updateField : TokenOrProgramUpdate).

Definition invoke (c : call) : method t unit :=
  match c with
  | AddUpdateAccountAddress v => addUpdateAccountAddress v
  | AddTokenAddress v => addTokenAddress v
  | AddUpdateField v => addUpdateField v
  end.

(** The items a call adds to [updates]. *)
Definition added_updates (c : call) : list TokenOrProgramUpdate :=
  match c with
  | AddUpdateField v => [v]
  | _ => []
  end.

(** The update payload of an instruction, if it has one. *)
Definition updated (i : Instruction.t) : option UpdateInstruction.t :=
  match Instruction.value i with
  | Instruction.Update u => Some u
  | _ => None
  end.

End Class.
End TokenUpdateBuilder.

Module TokenDistributionBuilder.
Section Class.
Context `{Programs}.

Record t : Type := mk {
  programId : option (slot AddressOrNamespace);
  to : option (slot AddressOrNamespace);
  amount : option string;
  tokenIds : list string;
  updateFields : list TokenUpdateField
}.

Definition new : t :=
  {| programId := None; to := None; amount := None; tokenIds := [];
     updateFields := [] |}.

Definition setProgramId (programId' : slot AddressOrNamespace)
    : method t unit :=
  fun this => (tt, {| programId := Some programId'; to := to this;
                      amount := amount this; tokenIds := tokenIds this;
                      updateFields := updateFields this |}).

Definition setReceiver (receiver : slot AddressOrNamespace) : method t unit :=
  fun this => (tt, {| programId := programId this; to := Some receiver;
                      amount := amount this; tokenIds := tokenIds this;
                      updateFields := updateFields this |}).

Definition setAmount (amount' : string) : method t unit :=
  fun this => (tt, {| programId := programId this; to := to this;
                      amount := Some amount'; tokenIds := tokenIds this;
                      updateFields := updateFields this |}).

Definition addTokenId (tokenId : string) : method t unit :=
  fun this => (tt, {| programId := programId this; to := to this;
                      amount := amount this;
                      tokenIds := tokenIds this ++ [tokenId];
                      updateFields := updateFields this |}).

Definition extendTokenIds (items : list string) : method t unit :=
  fun this => (tt, {| programId := programId this; to := to this;
                      amount := amount this;
                      tokenIds := tokenIds this ++ items;
                      updateFields := updateFields this |}).

Definition addUpdateField (updateField : TokenUpdateField) : method t unit :=
  fun this => (tt, {| programId := programId this; to := to this;
                      amount := amount this; tokenIds := tokenIds this;
                      updateFields := updateFields this ++ [updateField] |}).

Definition extendUpdateFields (items : list TokenUpdateField)
    : method t unit :=
  fun this => (tt, {| programId := programId this; to := to this;
                      amount := amount this; tokenIds := tokenIds this;
                      updateFields := updateFields this ++ items |}).

(** [v instanceof AddressOrNamespace ? v.toJson() : v ?? null] *)
Definition flatten (v : option (slot AddressOrNamespace))
    : option (slot AddressOrNamespace) :=
  match v with
  | Some s => if instanceof s then Some (Plain (toJson s)) else Some s
  | None => None
  end.

Definition build : method t TokenDistribution.t :=
  fun this =>
    let programId := flatten (programId this) in
    let to := flatten (to this) in
    (TokenDistribution.mk programId to (amount this)
       (map (fun tokenId => tokenId) (tokenIds this))
       (map (fun updateField => Plain (toJson updateField))
            (updateFields this)),
     this).

(** The setter calls a client can make, and the field each one targets. *)
Inductive call : Type :=
| SetProgramId (programId : slot AddressOrNamespace)
| SetReceiver (receiver : slot AddressOrNamespace)
| SetAmount (amount : string)
| AddTokenId (tokenId : string)
| ExtendTokenIds (items : list string)
| AddUpdateField (updateField : TokenUpdateField)
| ExtendUpdateFields (items : list TokenUpdateField).

Definition invoke (c : call) : method t unit :=
  match c with
  | SetProgramId v => setProgramId v
  | SetReceiver v => setReceiver v
  | SetAmount v => setAmount v
  | AddTokenId v => addTokenId v
  | ExtendTokenIds v => extendTokenIds v
  | AddUpdateField v => addUpdateField v
  | ExtendUpdateFields v => extendUpdateFields v
  end.

Inductive field : Type :=
| ProgramId | To | Amount | TokenIds | UpdateFields.

Definition target (c : call) : field :=
  match c with
  | SetProgramId _ => ProgramId
  | SetReceiver _ => To
  | SetAmount _ => Amount
  | AddTokenId _ | ExtendTokenIds _ => TokenIds
  | AddUpdateField _ | ExtendUpdateFields _ => UpdateFields
  end.

(** Field [f] of a built distribution holds its default: null for a scalar,
    the empty list for a list. *)
Definition unset (f : field) (d : TokenDistribution.t) : Prop :=
  match f with
  | ProgramId => TokenDistribution.programId d = None
  | To => TokenDistribution.to d = None
  | Amount => TokenDistribution.amount d = None
  | TokenIds => TokenDistribution.tokenIds d = []
  | UpdateFields => TokenDistribution.updateFields d = []
  end.

(** The items a call adds to [tokenIds] and to [updateFields]. *)
Definition added_tokenIds (c : call) : list string :=
  match c with
  | AddTokenId v => [v]
  | ExtendTokenIds items => items
  | _ => []
  end.

Definition added_updateFields (c : call) : list TokenUpdateField :=
  match c with
  | AddUpdateField v => [v]
  | ExtendUpdateFields items => items
  | _ => []
  end.

(** The fields that hold one value, as opposed to a list. *)
Definition scalar (f : field) : bool :=
  match f with
  | TokenIds | UpdateFields => false
  | _ => true
  end.

End Class.
End TokenDistributionBuilder.

Module CreateInstructionBuilder.
Section Class.
Context `{Programs}.

Record t : Type := mk {
  programNamespace : option (slot AddressOrNamespace);
  programId : option (slot AddressOrNamespace);
  programOwner : option Address;
  totalSupply : option string;
  initializedSupply : option string;
  distribution : list TokenDistribution.t
}.

Definition new : t :=
  {| programNamespace := None; programId := None; programOwner := None;
     totalSupply := None; initializedSupply := None; distribution := [] |}.

Definition setProgramNamespace (programNamespace' : slot AddressOrNamespace)
    : method t unit :=
  fun this => (tt, {| programNamespace := Some programNamespace';
                      programId := programId this;
                      programOwner := programOwner this;
                      totalSupply := totalSupply this;
                      initializedSupply := initializedSupply this;
                      distribution := distribution this |}).

Definition setProgramId (programId' : slot AddressOrNamespace)
    : method t unit :=
  fun this => (tt, {| programNamespace := programNamespace this;
                      programId := Some programId';
                      programOwner := programOwner this;
                      totalSupply := totalSupply this;
                      initializedSupply := initializedSupply this;
                      distribution := distribution this |}).

Definition setProgramOwner (programOwner' : Address) : method t unit :=
  fun this => (tt, {| programNamespace := programNamespace this;
                      programId := programId this;
                      programOwner := Some programOwner';
                      totalSupply := totalSupply this;
                      initializedSupply := initializedSupply this;
                      distribution := distribution this |}).

Definition setTotalSupply (totalSupply' : string) : method t unit :=
  fun this => (tt, {| programNamespace := programNamespace this;
                      programId := programId this;
                      programOwner := programOwner this;
                      totalSupply := Some totalSupply';
                      initializedSupply := initializedSupply this;
                      distribution := distribution this |}).

Definition setInitializedSupply (initializedSupply' : string)
    : method t unit :=
  fun this => (tt, {| programNamespace := programNamespace this;
                      programId := programId this;
                      programOwner := programOwner this;
                      totalSupply := totalSupply this;
                      initializedSupply := Some initializedSupply';
                      distribution := distribution this |}).

Definition addTokenDistribution (tokenDistribution : TokenDistribution.t)
    : method t unit :=
  fun this => (tt, {| programNamespace := programNamespace this;
                      programId := programId this;
                      programOwner := programOwner this;
                      totalSupply := totalSupply this;
                      initializedSupply := initializedSupply this;
                      distribution := distribution this ++ [tokenDistribution] |}).

Definition extendTokenDistribution (items : list TokenDistribution.t)
    : method t unit :=
  fun this => (tt, {| programNamespace := programNamespace this;
                      programId := programId this;
                      programOwner := programOwner this;
                      totalSupply := totalSupply this;
                      initializedSupply := initializedSupply this;
                      distribution := distribution this ++ items |}).

Definition build : method t Instruction.t :=
  fun this =>
    (Instruction.mk "create"
       (Instruction.Create
          (CreateInstruction.mk (programNamespace this) (programId this)
             (programOwner this) (totalSupply this) (initializedSupply this)
             (distribution this))),
     this).

Inductive call : Type :=
| SetProgramNamespace (programNamespace : slot AddressOrNamespace)
| SetProgramId (programId : slot AddressOrNamespace)
| SetProgramOwner (programOwner : Address)
| SetTotalSupply (totalSupply : string)
| SetInitializedSupply (initializedSupply : string)
| AddTokenDistribution (tokenDistribution : TokenDistribution.t)
| ExtendTokenDistribution (items : list TokenDistribution.t).

Definition invoke (c : call) : method t unit :=
  match c with
  | SetProgramNamespace v => setProgramNamespace v
  | SetProgramId v => setProgramId v
  | SetProgramOwner v => setProgramOwner v
  | SetTotalSupply v => setTotalSupply v
  | SetInitializedSupply v => setInitializedSupply v
  | AddTokenDistribution v => addTokenDistribution v
  | ExtendTokenDistribution v => extendTokenDistribution v
  end.

Inductive field : Type :=
| ProgramNamespace | ProgramId | ProgramOwner | TotalSupply
| InitializedSupply | Distribution.

Definition target (c : call) : field :=
  match c with
  | SetProgramNamespace _ => ProgramNamespace
  | SetProgramId _ => ProgramId
  | SetProgramOwner _ => ProgramOwner
  | SetTotalSupply _ => TotalSupply
  | SetInitializedSupply _ => InitializedSupply
  | AddTokenDistribution _ | ExtendTokenDistribution _ => Distribution
  end.

(** The create payload of an instruction, if it has one. *)
Definition created (i : Instruction.t) : option CreateInstruction.t :=
  match Instruction.value i with
  | Instruction.Create c => Some c
  | _ => None
  end.

Definition unset (f : field) (i : Instruction.t) : Prop :=
  exists c, created i = Some c /\
  match f with
  | ProgramNamespace => CreateInstruction.programNamespace c = None
  | ProgramId => CreateInstruction.programId c = None
  | ProgramOwner => CreateInstruction.programOwner c = None
  | TotalSupply => CreateInstruction.totalSupply c = None
  | InitializedSupply => CreateInstruction.initializedSupply c = None
  | Distribution => CreateInstruction.distribution c = []
  end.

(** The items a call adds to [distribution]. *)
Definition added_distribution (c : call) : list TokenDistribution.t :=
  match c with
  | AddTokenDistribution v => [v]
  | ExtendTokenDistribution items => items
  | _ => []
  end.

(** The fields that hold one value, as opposed to a list. *)
Definition scalar (f : field) : bool :=
  match f with
  | Distribution => false
  | _ => true
  end.

End Class.
End CreateInstructionBuilder.

Module UpdateInstructionBuilder.
Section Class.
Context `{Programs}.

Record t : Type := mk {
  updates : list TokenOrProgramUpdate
}.

Definition new : t := {| updates := [] |}.

Definition addUpdate (update : TokenOrProgramUpdate) : method t unit :=
  fun this => (tt, {| updates := updates this ++ [update] |}).

Definition extendUpdates (items : list TokenOrProgramUpdate)
    : method t unit :=
  fun this => (tt, {| updates := updates this ++ items |}).

Definition build : method t Instruction.t :=
  fun this =>
    (Instruction.mk "update"
       (Instruction.Update (UpdateInstruction.mk (updates this))),
     this).

Inductive call : Type :=
| AddUpdate (update : TokenOrProgramUpdate)
| ExtendUpdates (items : list TokenOrProgramUpdate).

Definition invoke (c : call) : method t unit :=
  match c with
  | AddUpdate v => addUpdate v
  | ExtendUpdates v => extendUpdates v
  end.

(** The update payload of an instruction, if it has one. *)
Definition updated (i : Instruction.t) : option UpdateInstruction.t :=
  match Instruction.value i with
  | Instruction.Update u => Some u
  | _ => None
  end.

Inductive field : Type := Updates.

Definition target (c : call) : field := Updates.

Definition unset (f : field) (i : Instruction.t) : Prop :=
  exists u, updated i = Some u /\ UpdateInstruction.updates u = [].

(** The items a call adds to [updates]. *)
Definition added_updates (c : call) : list TokenOrProgramUpdate :=
  match c with
  | AddUpdate v => [v]
  | ExtendUpdates items => items
  end.

End Class.
End UpdateInstructionBuilder.

Module TransferInstructionBuilder.
Section Class.
Context `{Programs}.

Record t : Type := mk {
  token : option Address;
  transferFrom : option (slot AddressOrNamespace);
  transferTo : option (slot AddressOrNamespace);
  amount : option string;
  ids : list string
}.

Definition new : t :=
  {| token := None; transferFrom := None; transferTo := None;
     amount := None; ids := [] |}.

Definition setTokenAddress (tokenAddress : Address) : method t unit :=
  fun this => (tt, {| token := Some tokenAddress;
                      transferFrom := transferFrom this;
                      transferTo := transferTo this;
                      amount := amount this; ids := ids this |}).

Definition setTransferFrom (transferFrom' : slot AddressOrNamespace)
    : method t unit :=
  fun this => (tt, {| token := token this;
                      transferFrom := Some transferFrom';
                      transferTo := transferTo this;
                      amount := amount this; ids := ids this |}).

Definition setTransferTo (transferTo' : slot AddressOrNamespace)
    : method t unit :=
  fun this => (tt, {| token := token this;
                      transferFrom := transferFrom this;
                      transferTo := Some transferTo';
                      amount := amount this; ids := ids this |}).

(** [setAmount(amount: string | null)] *)
Definition setAmount (amount' : option string) : method t unit :=
  fun this => (tt, {| token := token this;
                      transferFrom := transferFrom this;
                      transferTo := transferTo this;
                      amount := amount'; ids := ids this |}).

Definition addTokenIds (tokenIds : list string) : method t unit :=
  fun this => (tt, {| token := token this;
                      transferFrom := transferFrom this;
                      transferTo := transferTo this;
                      amount := amount this; ids := ids this ++ tokenIds |}).

Definition extendTokenIds (items : list string) : method t unit :=
  fun this => (tt, {| token := token this;
                      transferFrom := transferFrom this;
                      transferTo := transferTo this;
                      amount := amount this; ids := ids this ++ items |}).

Definition build : method t Instruction.t :=
  fun this =>
    let token := match token this with Some a => Some a | None => None end in
    (Instruction.mk "transfer"
       (Instruction.Transfer
          (TransferInstruction.mk token (transferFrom this) (transferTo this)
             (amount this) (ids this))),
     this).

Inductive call : Type :=
| SetTokenAddress (tokenAddress : Address)
| SetTransferFrom (transferFrom : slot AddressOrNamespace)
| SetTransferTo (transferTo : slot AddressOrNamespace)
| SetAmount (amount : option string)
| AddTokenIds (tokenIds : list string)
| ExtendTokenIds (items : list string).

Definition invoke (c : call) : method t unit :=
  match c with
  | SetTokenAddress v => setTokenAddress v
  | SetTransferFrom v => setTransferFrom v
  | SetTransferTo v => setTransferTo v
  | SetAmount v => setAmount v
  | AddTokenIds v => addTokenIds v
  | ExtendTokenIds v => extendTokenIds v
  end.

Inductive field : Type :=
| Token | TransferFrom | TransferTo | Amount | Ids.

Definition target (c : call) : field :=
  match c with
  | SetTokenAddress _ => Token
  | SetTransferFrom _ => TransferFrom
  | SetTransferTo _ => TransferTo
  | SetAmount _ => Amount
  | AddTokenIds _ | ExtendTokenIds _ => Ids
  end.

(** The transfer payload of an instruction, if it has one. *)
Definition transferred (i : Instruction.t) : option TransferInstruction.t :=
  match Instruction.value i with
  | Instruction.Transfer x => Some x
  | _ => None
  end.

Definition unset (f : field) (i : Instruction.t) : Prop :=
  exists x, transferred i = Some x /\
  match f with
  | Token => TransferInstruction.token x = None
  | TransferFrom => TransferInstruction.transferFrom x = None
  | TransferTo => TransferInstruction.transferTo x = None
  | Amount => TransferInstruction.amount x = None
  | Ids => TransferInstruction.ids x = []
  end.

(** The items a call adds to [ids]. *)
Definition added_ids (c : call) : list string :=
  match c with
  | AddTokenIds items | ExtendTokenIds items => items
  | _ => []
  end.

(** The fields that hold one value, as opposed to a list. *)
Definition scalar (f : field) : bool :=
  match f with
  | Ids => false
  | _ => true
  end.

End Class.
End TransferInstructionBuilder.

Module BurnInstructionBuilder.
Section Class.
Context `{Programs}.

Record t : Type := mk {
  caller : option Address;
  programId : option (slot AddressOrNamespace);
  token : option Address;
  burnFrom : option (slot AddressOrNamespace);
  amount : option string;
  tokenIds : list string
}.

Definition new : t :=
  {| caller := None; programId := None; token := None; burnFrom := None;
     amount := None; tokenIds := [] |}.

Definition setCaller (caller' : Address) : method t unit :=
  fun this => (tt, {| caller := Some caller'; programId := programId this;
                      token := token this; burnFrom := burnFrom this;
                      amount := amount this; tokenIds := tokenIds this |}).

Definition setProgramId (programId' : slot AddressOrNamespace)
    : method t unit :=
  fun this => (tt, {| caller := caller this; programId := Some programId';
                      token := token this; burnFrom := burnFrom this;
                      amount := amount this; tokenIds := tokenIds this |}).

Definition setTokenAddress (tokenAddress : Address) : method t unit :=
  fun this => (tt, {| caller := caller this; programId := programId this;
                      token := Some tokenAddress; burnFrom := burnFrom this;
                      amount := amount this; tokenIds := tokenIds this |}).

Definition setBurnFromAddress (burnFromAddress : slot AddressOrNamespace)
    : method t unit :=
  fun this => (tt, {| caller := caller this; programId := programId this;
                      token := token this; burnFrom := Some burnFromAddress;
                      amount := amount this; tokenIds := tokenIds this |}).

Definition setAmount (amount' : string) : method t unit :=
  fun this => (tt, {| caller := caller this; programId := programId this;
                      token := token this; burnFrom := burnFrom this;
                      amount := Some amount'; tokenIds := tokenIds this |}).

Definition addTokenId (tokenId : string) : method t unit :=
  fun this => (tt, {| caller := caller this; programId := programId this;
                      token := token this; burnFrom := burnFrom this;
                      amount := amount this;
                      tokenIds := tokenIds this ++ [tokenId] |}).

Definition extendTokenIds (items : list string) : method t unit :=
  fun this => (tt, {| caller := caller this; programId := programId this;
                      token := token this; burnFrom := burnFrom this;
                      amount := amount this;
                      tokenIds := tokenIds this ++ items |}).

Definition build : method t Instruction.t :=
  fun this =>
    (Instruction.mk "burn"
       (Instruction.Burn
          (BurnInstruction.mk (caller this) (programId this) (token this)
             (burnFrom this) (amount this) (tokenIds this))),
     this).

Inductive call : Type :=
| SetCaller (caller : Address)
| SetProgramId (programId : slot AddressOrNamespace)
| SetTokenAddress (tokenAddress : Address)
| SetBurnFromAddress (burnFromAddress : slot AddressOrNamespace)
| SetAmount (amount : string)
| AddTokenId (tokenId : string)
| ExtendTokenIds (items : list string).

Definition invoke (c : call) : method t unit :=
  match c with
  | SetCaller v => setCaller v
  | SetProgramId v => setProgramId v
  | SetTokenAddress v => setTokenAddress v
  | SetBurnFromAddress v => setBurnFromAddress v
  | SetAmount v => setAmount v
  | AddTokenId v => addTokenId v
  | ExtendTokenIds v => extendTokenIds v
  end.

Inductive field : Type :=
| Caller | ProgramId | Token | BurnFrom | Amount | TokenIds.

Definition target (c : call) : field :=
  match c with
  | SetCaller _ => Caller
  | SetProgramId _ => ProgramId
  | SetTokenAddress _ => Token
  | SetBurnFromAddress _ => BurnFrom
  | SetAmount _ => Amount
  | AddTokenId _ | ExtendTokenIds _ => TokenIds
  end.

(** The burn payload of an instruction, if it has one. *)
Definition burned (i : Instruction.t) : option BurnInstruction.t :=
  match Instruction.value i with
  | Instruction.Burn x => Some x
  | _ => None
  end.

Definition unset (f : field) (i : Instruction.t) : Prop :=
  exists x, burned i = Some x /\
  match f with
  | Caller => BurnInstruction.caller x = None
  | ProgramId => BurnInstruction.programId x = None
  | Token => BurnInstruction.token x = None
  | BurnFrom => BurnInstruction.burnFrom x = None
  | Amount => BurnInstruction.amount x = None
  | TokenIds => BurnInstruction.tokenIds x = []
  end.

(** The items a call adds to [tokenIds]. *)
Definition added_tokenIds (c : call) : list string :=
  match c with
  | AddTokenId v => [v]
  | ExtendTokenIds items => items
  | _ => []
  end.

(** The fields that hold one value, as opposed to a list. *)
Definition scalar (f : field) : bool :=
  match f with
  | TokenIds => false
  | _ => true
  end.

End Class.
End BurnInstructionBuilder.

Module OutputBuilder.
Section Class.
Context `{Programs}.

Record t : Type := mk {
  inputs : option Inputs;
  instructions : list Instruction.t
}.

Definition new : t := {| inputs := None; instructions := [] |}.

Definition setInputs (inputs' : Inputs) : method t unit :=
  fun this => (tt, {| inputs := Some inputs';
                      instructions := instructions this |}).

Definition addInstruction (instruction : Instruction.t) : method t unit :=
  fun this => (tt, {| inputs := inputs this;
                      instructions := instructions this ++ [instruction] |}).

Definition build : method t Outputs.t :=
  fun this => (Outputs.mk (inputs this) (instructions this), this).

Inductive call : Type :=
| SetInputs (inputs : Inputs)
| AddInstruction (instruction : Instruction.t).

Definition invoke (c : call) : method t unit :=
  match c with
  | SetInputs v => setInputs v
  | AddInstruction v => addInstruction v
  end.

Inductive field : Type := InputsField | Instructions.

Definition target (c : call) : field :=
  match c with
  | SetInputs _ => InputsField
  | AddInstruction _ => Instructions
  end.

Definition unset (f : field) (o : Outputs.t) : Prop :=
  match f with
  | InputsField => Outputs.inputs o = None
  | Instructions => Outputs.instructions o = []
  end.

(** The items a call adds to [instructions]. *)
Definition added_instructions (c : call) : list Instruction.t :=
  match c with
  | AddInstruction v => [v]
  | _ => []
  end.

(** The fields that hold one value, as opposed to a list. *)
Definition scalar (f : field) : bool :=
  match f with
  | Instructions => false
  | _ => true
  end.

End Class.
End OutputBuilder.

(** ** Part IIb. Builders with their arrays by reference

    The builders above carry their lists as values. Here the arrays of
    the three builders that own a single array are objects in a store, so
    that what [build()] hands to the constructor is an array reference:
    the builder's own array where the source passes [this.updates] or
    [this.instructions], a new array where it passes the result of
    [map]. *)

Module Arrays.

Definition loc : Type := positive.

(** [[...items]] as a new object. *)
Definition alloc {X} (items : list X) (store : gmap loc (list X))
    : loc * gmap loc (list X) :=
  let l := fresh (dom store) in (l, <[l := items]> store).

(** [array.push(...items)] *)
Definition push {X} (array : loc) (items : list X) (store : gmap loc (list X))
    : gmap loc (list X) :=
  alter (fun old => old ++ items) array store.

(** The items of an array. *)
Definition read {X} (array : loc) (store : gmap loc (list X)) : list X :=
  default [] (store !! array).

End Arrays.

Module UpdateInstructionBuilderRef.
Import Arrays.
Section Class.
Context `{Programs}.

Record t : Type := mk { updates : loc }.

(** [private updates: TokenOrProgramUpdate[] = []] *)
Definition new (store : gmap loc (list TokenOrProgramUpdate))
    : t * gmap loc (list TokenOrProgramUpdate) :=
  let (array, store') := alloc [] store in (mk array, store').

Definition addUpdate (update : TokenOrProgramUpdate) (this : t)
    (store : gmap loc (list TokenOrProgramUpdate))
    : gmap loc (list TokenOrProgramUpdate) :=
  push (updates this) [update] store.

Definition extendUpdates (items : list TokenOrProgramUpdate) (this : t)
    (store : gmap loc (list TokenOrProgramUpdate))
    : gmap loc (list TokenOrProgramUpdate) :=
  push (updates this) items store.

(** [new Instruction('update', new UpdateInstruction(this.updates))]: the
    tag and the array handed to the constructor. *)
Definition build (this : t) (store : gmap loc (list TokenOrProgramUpdate))
    : (string * loc) * gmap loc (list TokenOrProgramUpdate) :=
  (("update", updates this), store).

End Class.
End UpdateInstructionBuilderRef.

Module TokenUpdateBuilderRef.
Import Arrays.
Section Class.
Context `{Programs}.

Record t : Type := mk {
  account : option (slot AddressOrNamespace);
  token : option (slot AddressOrNamespace);
  updates : loc
}.

Definition new (store : gmap loc (list TokenOrProgramUpdate))
    : t * gmap loc (list TokenOrProgramUpdate) :=
  let (array, store') := alloc [] store in (mk None None array, store').

Definition addUpdateField (updateField : TokenOrProgramUpdate) (this : t)
    (store : gmap loc (list TokenOrProgramUpdate))
    : gmap loc (list TokenOrProgramUpdate) :=
  push (updates this) [updateField] store.

(** [new Instruction('update', new UpdateInstruction(this.updates.map(
    (update) => update)))]: the tag and the array handed to the
    constructor, which [map] has just created. *)
Definition build (this : t) (store : gmap loc (list TokenOrProgramUpdate))
    : (string * loc) * gmap loc (list TokenOrProgramUpdate) :=
  let (copy, store') :=
    alloc (map (fun update => update) (read (updates this) store)) store in
  (("update", copy), store').

End Class.
End TokenUpdateBuilderRef.

Module OutputBuilderRef.
Import Arrays.
Section Class.
Context `{Programs}.

Record t : Type := mk {
  inputs : option Inputs;
  instructions : loc
}.

Definition new (store : gmap loc (list Instruction.t))
    : t * gmap loc (list Instruction.t) :=
  let (array, store') := alloc [] store in (mk None array, store').

Definition setInputs (inputs' : Inputs) (this : t) : t :=
  mk (Some inputs') (instructions this).

Definition addInstruction (instruction : Instruction.t) (this : t)
    (store : gmap loc (list Instruction.t)) : gmap loc (list Instruction.t) :=
  push (instructions this) [instruction] store.

(** [new Outputs(this.inputs, this.instructions)]: the two arguments
    handed to the constructor. *)
Definition build (this : t) (store : gmap loc (list Instruction.t))
    : (option Inputs * loc) * gmap loc (list Instruction.t) :=
  ((inputs this, instructions this), store).

End Class.
End OutputBuilderRef.

(** ** Part III. The amount codec *)

Module Codec.

Local Open Scope N_scope.

(** JavaScript strings are handled as sequences of characters. *)
Definition chars : Type := list ascii.

Definition zero : ascii := "0"%char.
Definition dot : ascii := "."%char.

Definition is_zero (c : ascii) : bool := Ascii.eqb c zero.

(** The value of a digit character: [0-9], and [a-f] for hexadecimal. *)
Definition digit_value (c : ascii) : option N :=
  let n := N_of_ascii c in
  if (48 <=? n) && (n <=? 57) then Some (n - 48)
  else if (97 <=? n) && (n <=? 102) then Some (n - 87)
  else None.

(** The lower-case character of a digit below 16. *)
Definition digit_char (d : N) : ascii :=
  ascii_of_N (if d <? 10 then 48 + d else 87 + d).

(** Reading a digit sequence in base [radix], most significant digit
    first, into an arbitrary-precision integer; any other character is a
    parse error. *)
Fixpoint parse_from (radix acc : N) (s : chars) : option N :=
  match s with
  | [] => Some acc
  | c :: s' =>
      match digit_value c with
      | Some d => if d <? radix then parse_from radix (acc * radix + d) s'
                  else None
      | None => None
      end
  end.

Definition parse (radix : N) (s : chars) : option N := parse_from radix 0 s.

(** Writing an integer in base [radix] without leading zeros, as
    [toString(radix)] does; [fuel] bounds the number of digits. *)
Fixpoint render_fuel (fuel : nat) (radix n : N) : chars :=
  match fuel with
  | O => []
  | S fuel' =>
      (if n <? radix then [] else render_fuel fuel' radix (n / radix))
      ++ [digit_char (n mod radix)]
  end.

Definition render (radix n : N) : chars :=
  render_fuel (S (N.to_nat (N.size n))) radix n.

Definition padStart (n : nat) (c : ascii) (s : chars) : chars :=
  replicate (n - length s) c ++ s.

Definition padEnd (n : nat) (c : ascii) (s : chars) : chars :=
  s ++ replicate (n - length s) c.

(** The part before the first ["."], and the part after it if there is one. *)
Fixpoint split_dot (s : chars) : chars * option chars :=
  match s with
  | [] => ([], None)
  | c :: s' =>
      if Ascii.eqb c dot then ([], Some s')
      else let (whole, fraction) := split_dot s' in (c :: whole, fraction)
  end.

(** Dropping the zeros at the end of a fraction. *)
Fixpoint trim_trailing_zeros (s : chars) : chars :=
  match s with
  | [] => []
  | c :: s' =>
      match trim_trailing_zeros s' with
      | [] => if is_zero c then [] else [c]
      | t => c :: t
      end
  end.

(** Dropping the zeros in front of an integer part, all but its last digit. *)
Fixpoint strip_leading_zeros (s : chars) : chars :=
  match s with
  | c :: (_ :: _) as rest => if is_zero c then strip_leading_zeros rest else s
  | _ => s
  end.

Definition join (whole fraction : chars) : chars :=
  if bool_decide (fraction = []) then whole else whole ++ dot :: fraction.

(** The number of decimals of an amount, and the scale that goes with it. *)
Definition decimals : nat := 18.
Definition scale : N := 10 ^ 18.

(** Modelled from the spec: [parseAmountToBigInt] of [lib/utils], the
    first half of [amount -> hex]: the integer and fractional parts are
    parsed separately, the fraction is right-padded or truncated to exactly
    18 digits and the two are read as one integer. Non-numeric input and
    negative amounts are parse errors ([None]), and so are more than 18
    fractional digits when [strict] parsing is requested. *)
Definition parseAmountToBigInt (strict : bool) (amount : chars) : option N :=
  let (whole, fraction) := split_dot amount in
  let fraction := default [] fraction in
  if bool_decide (whole = []) then None
  else if strict && bool_decide (decimals < length fraction)%nat then None
  else parse 10 (whole ++ take decimals (padEnd decimals zero fraction)).

(** Modelled from the spec: [formatBigIntToHex] of [lib/utils], the second
    half of [amount -> hex]: lower-case hex, padded to 64 characters, with
    a [0x] prefix. *)
Definition formatBigIntToHex (n : N) : chars :=
  "0"%char :: "x"%char :: padStart 64 zero (render 16 n).

(** Modelled from the spec: [formatAmountToHex] of [lib/utils], on the
    characters of a decimal string. *)
Definition amountToHex (strict : bool) (amount : chars) : option chars :=
  formatBigIntToHex <$> parseAmountToBigInt strict amount.

(** Modelled from the spec: [formatHexToAmount] of [lib/utils] at its
    default precision, on the characters of the hex form: the value is
    divided by the scale and written with its full 18 fractional digits,
    trailing zeros trimmed. The optional number of displayed digits is not
    modelled. *)
Definition hexToAmount (hex : chars) : option chars :=
  match hex with
  | "0"%char :: "x"%char :: digits =>
      if bool_decide (digits = []) then None
      else
        n ← parse 16 digits;
        let whole := render 10 (n / scale) in
        let fraction := padStart decimals zero (render 10 (n mod scale)) in
        Some (join whole (trim_trailing_zeros fraction))
  | _ => None
  end.

Definition formatAmountToHex (strict : bool) (amount : string)
    : option string :=
  String.string_of_list_ascii <$> amountToHex strict (String.list_ascii_of_string amount).

Definition formatHexToAmount (hex : string) : option string :=
  String.string_of_list_ascii <$> hexToAmount (String.list_ascii_of_string hex).

(** A non-negative decimal string: digits, at least one, optionally
    followed by a point and the fractional digits. *)
Definition is_decimal_digit (c : ascii) : bool :=
  match digit_value c with
  | Some d => d <? 10
  | None => false
  end.

Definition decimal_chars (s : chars) : bool :=
  let (whole, fraction) := split_dot s in
  negb (bool_decide (whole = []))
  && forallb is_decimal_digit whole
  && forallb is_decimal_digit (default [] fraction).

Definition decimal_string (d : string) : bool :=
  decimal_chars (String.list_ascii_of_string d).

Definition fraction_digits (d : string) : nat :=
  length (default [] (split_dot (String.list_ascii_of_string d)).2).

(** The canonical form of a decimal string: its insignificant zeros are
    stripped, those at the end of the fraction (and the point, when no
    fraction is left) and those in front of the integer part. *)
Definition canonical_chars (s : chars) : chars :=
  let (whole, fraction) := split_dot s in
  join (strip_leading_zeros whole) (trim_trailing_zeros (default [] fraction)).

Definition canonical (d : string) : string :=
  String.string_of_list_ascii (canonical_chars (String.list_ascii_of_string d)).

(** A decimal string with only the zeros at the end of its fraction
    stripped, and whether its integer part starts with a zero that is not
    its only digit. *)
Definition trimmed_chars (s : chars) : chars :=
  let (whole, fraction) := split_dot s in
  join whole (trim_trailing_zeros (default [] fraction)).

Definition trimmed (d : string) : string :=
  String.string_of_list_ascii (trimmed_chars (String.list_ascii_of_string d)).

Definition leading_zero (d : string) : bool :=
  match (split_dot (String.list_ascii_of_string d)).1 with
  | c :: _ :: _ => is_zero c
  | _ => false
  end.

End Codec.

(** ** Part IIIb. The command-line helpers, [lasrctrl/cli-helpers.ts] *)

Module Cli.
Import Js.

(** The double quote and the escape character, for the texts that hold
    them. *)
Definition dq : string := String "034"%char "".
Definition esc : string := String "027"%char "".

(** A template literal: its pieces, in order. *)
Definition template (pieces : list string) : string := String.concat "" pieces.

(** [!s] on a string. *)
Definition falsy (s : string) : bool := String.eqb s "".

(** The two fields of a key pair that the helpers read. *)
Record KeyPair : Type := mkKeyPair {
  secret_key : string;
  address : string
}.

(** What the helpers throw or pass on: [new Error(message)], a file that
    cannot be read, a text that is not JSON, and whatever a command run
    through the shell is rejected with. *)
Inductive thrown {E : Type} : Type :=
| Error (message : string)
| NoEntry (path : string)
| SyntaxError (text : string)
| Rejected (e : E).
Arguments thrown : clear implicits.

Inductive line : Type :=
| Log (text : string)       (* [console.log] *)
| Err (text : string).      (* [console.error] *)

(** What the helpers act on: [process.env], the files by resolved path,
    the console, and the state of whatever the [lasr_cli] binary talks
    to. *)
Record World {O : Type} : Type := mkWorld {
  env : gmap string string;
  files : gmap string string;
  console : list line;
  outside : O
}.
Arguments World : clear implicits.

Section Helpers.
Context {E O Network J : Type}.

#[local] Abbreviation thrown := (Cli.thrown E).
#[local] Abbreviation World := (Cli.World O).
#[local] Abbreviation M := (Js.M World thrown).

(** What the helpers import and this file does not hold: [runCommand] of
    [lasrctrl/shell], [getRPCForNetwork] and [getIPFSForNetwork] of
    [lib/utils], [path.resolve], the text of [`${error}`], [JSON.parse] on
    a key pair file (the file is taken to hold a [KeyPairArray], as the
    cast in the source says), and [JSON.parse], [JSON.stringify] and
    object spread on the inputs of a call. *)
Variable runCommand : string -> M string.
Variable getRPCForNetwork : Network -> string.
Variable getIPFSForNetwork : Network -> string.
Variable resolve : string -> string.
Variable describe : thrown -> string.
Variable parseKeyPairs : string -> option (list KeyPair).
Variable JSON_parse : string -> option J.
Variable JSON_stringify : J -> string.
Variable spread : J -> J -> J.

Definition try_catch {X} (body : M X) (handler : thrown -> M X) : M X :=
  fun w => match body w with
           | (Throw error, w') => handler error w'
           | done => done
           end.

Definition console_log (text : string) : M unit :=
  fun w => (Return tt, mkWorld O (env w) (files w) (console w ++ [Log text])
                         (outside w)).

Definition console_error (text : string) : M unit :=
  fun w => (Return tt, mkWorld O (env w) (files w) (console w ++ [Err text])
                         (outside w)).

(** [process.env[name] = value] *)
Definition setenv (name value : string) : M unit :=
  fun w => (Return tt, mkWorld O (<[name := value]> (env w)) (files w)
                         (console w) (outside w)).

(** [fs.existsSync(path)] *)
Definition existsSync (path : string) : M bool :=
  fun w => (Return (bool_decide (is_Some (files w !! resolve path))), w).

(** [fsp.readFile(path, 'utf8')] *)
Definition readFile (path : string) : M string :=
  fun w => match files w !! path with
           | Some content => (Return content, w)
           | None => (Throw (NoEntry path), w)
           end.

Definition parse_key_pairs (fileContent : string) : M (list KeyPair) :=
  match parseKeyPairs fileContent with
  | Some keyPairs => ret keyPairs
  | None => throw (SyntaxError fileContent)
  end.

Definition parse_json (text : string) : M J :=
  match JSON_parse text with
  | Some j => ret j
  | None => throw (SyntaxError text)
  end.

Definition keypair_json : string := ".lasr/wallet/keypair.json".

Definition initializeWallet : M unit :=
  do _ <- runCommand "./build/lasr_cli wallet new --save";
  console_log
    "Wallet initialized and keypair.json created at ./.lasr/wallet/keypair.json".

Definition getSecretKeyFromKeyPairFile (keypairFilePath : string) : M string :=
  try_catch
    (do keyPairs <-
       try_catch
         (do _ <- console_log "Getting secret key from keypair file";
          let absolutePath := resolve keypairFilePath in
          do fileContent <- readFile absolutePath;
          parse_key_pairs fileContent)
         (fun error =>
          do _ <- initializeWallet;
          let absolutePath := resolve keypairFilePath in
          do fileContent <- readFile absolutePath;
          parse_key_pairs fileContent);
     match keyPairs with
     | first :: _ => ret (secret_key first)
     | [] => ret ""
     end)
    (fun error =>
       do _ <- console_error
                 (template ["Failed to retrieve the secret key: "; describe error]);
       throw error).

Definition getAddressFromKeyPairFile (keypairFilePath : string) : M string :=
  try_catch
    (do _ <- console_log "Getting address from keypair file";
     let absolutePath := resolve keypairFilePath in
     do fileContent <- readFile absolutePath;
     do keyPairs <- parse_key_pairs fileContent;
     match keyPairs with
     | first :: _ => ret (address first)
     | [] => ret ""
     end)
    (fun error =>
       do _ <- console_error
                 (template ["Failed to retrieve the secret key: "; describe error]);
       throw error).

Definition registerProgram (cid secretKey : string) (network : Network)
    : M string :=
  try_catch
    (do _ <- setenv "LASR_RPC_URL" (getRPCForNetwork network);
     do _ <- setenv "VIPFS_ADDRESS" (getIPFSForNetwork network);
     let command :=
       template ["./build/lasr_cli wallet register-program --from-secret-key --secret-key ";
                 dq; secretKey; dq; " --cid "; dq; cid; dq] in
     runCommand command)
    (fun e => throw (Error (template ["Failed to register program: "; describe e]))).

(** [getSecretKey(secretKeyPath?, secretKey?)]: [if (secretKey) return
    secretKey], and otherwise the key of the wallet's key pair file. *)
Definition getSecretKey (secretKeyPath secretKey : option string) : M string :=
  let fromWallet : M string :=
    do present <- existsSync keypair_json;
    do _ <- (if negb present
             then do _ <- console_log
                            (template [esc; "[0;33mInitializing wallet..."; esc; "[0m"]);
                  initializeWallet
             else console_log
                    (template [esc; "[0;33mUsing existing keypair..."; esc; "[0m"]));
    let keypairPath := keypair_json in
    do retrievedSecretKey <- getSecretKeyFromKeyPairFile keypairPath;
    ret retrievedSecretKey in
  match secretKey with
  | Some key => if falsy key then fromWallet else ret key
  | None => fromWallet
  end.

Definition callCreate (programAddress symbol name initializedSupply
    totalSupply recipientAddress : string) (network : Network)
    (secretKey : string) (inputs : option string) : M string :=
  if falsy programAddress || falsy symbol || falsy name
     || falsy initializedSupply || falsy recipientAddress
     || falsy totalSupply || falsy secretKey
  then
    throw (Error (template
      ["programAddress ("; programAddress; "), symbol ("; symbol;
       "), name ("; name; "), initializedSupply ("; initializedSupply;
       "), totalSupply("; totalSupply;
       "), and secretKey are required to call create."]))
  else
    do parsed <- parse_json (template
      ["{"; dq; "name"; dq; ":"; dq; name; dq; ",";
       dq; "symbol"; dq; ":"; dq; symbol; dq; ",";
       dq; "initializedSupply"; dq; ":"; dq; initializedSupply; dq; ",";
       dq; "totalSupply"; dq; ":"; dq; totalSupply; dq; ",";
       dq; "to"; dq; ":"; dq; recipientAddress; dq; "}"]);
    let inputsStr := JSON_stringify parsed in
    do inputsStr <-
      match inputs with
      | Some text =>
          if falsy text then ret inputsStr
          else
            do parsed <- parse_json inputsStr;
            do parsedInputs <- parse_json text;
            ret (JSON_stringify (spread parsed parsedInputs))
      | None => ret inputsStr
      end;
    do _ <- setenv "LASR_RPC_URL" (getRPCForNetwork network);
    do _ <- setenv "VIPFS_ADDRESS" (getIPFSForNetwork network);
    let command :=
      template ["./build/lasr_cli wallet call --from-secret-key --secret-key ";
                dq; secretKey; dq; " --op "; dq; "create"; dq;
                " --inputs '"; inputsStr; "' --to "; dq; programAddress; dq;
                " --content-namespace "; dq; programAddress; dq] in
    runCommand command.

Definition sendTokens (programAddress recipientAddress amount
    secretKey : string) (network : Network) : M string :=
  if falsy programAddress || falsy recipientAddress || falsy amount
     || falsy secretKey
  then
    throw (Error (template
      ["programAddress ("; programAddress; "), recipientAddress (";
       recipientAddress; "), amount ("; amount;
       "), and secretKey are required to call create."]))
  else
    do _ <- setenv "LASR_RPC_URL" (getRPCForNetwork network);
    do _ <- setenv "VIPFS_ADDRESS" (getIPFSForNetwork network);
    let command :=
      template ["./build/lasr_cli wallet send --to "; recipientAddress;
                " -c "; programAddress; " --value "; amount;
                " -u verse --from-secret-key --secret-key ";
                dq; secretKey; dq] in
    runCommand command.

Definition callProgram (programAddress op inputs : string)
    (network : Network) (secretKey : string) : M string :=
  if falsy programAddress || falsy op || falsy inputs || falsy secretKey
  then
    throw (Error (template
      ["programAddress ("; programAddress; "), op ("; op; "), inputs (";
       inputs; "), and secretKey are required to call create."]))
  else
    do _ <- setenv "LASR_RPC_URL" (getRPCForNetwork network);
    do _ <- setenv "VIPFS_ADDRESS" (getIPFSForNetwork network);
    let command :=
      template ["./build/lasr_cli wallet call --from-secret-key --secret-key ";
                dq; secretKey; dq; " --op "; op; " --inputs '"; inputs;
                "' --to "; programAddress; " --content-namespace ";
                programAddress] in
    runCommand command.

End Helpers.

(** A world with one more line on its console. *)
Definition printed {O} (l : line) (w : World O) : World O :=
  mkWorld O (env w) (files w) (console w ++ [l]) (outside w).

(** A world whose environment names the two endpoints of a network, as
    the helpers leave it before they run a command. *)
Definition configured {O} (rpc ipfs : string) (w : World O) : World O :=
  mkWorld O (<["VIPFS_ADDRESS" := ipfs]> (<["LASR_RPC_URL" := rpc]> (env w)))
    (files w) (console w) (outside w).

(** For concrete runs: a machine whose working directory is [/home/user],
    whose shell creates the wallet's key pair file on [wallet new --save]
    and rejects every other command, and whose key pair files hold either
    one pair or none. *)
Module Sample.

Definition resolve (path : string) : string :=
  String.append "/home/user/" path.

Definition describe (error : thrown unit) : string :=
  match error with
  | Error message => String.append "Error: " message
  | NoEntry path => String.append "Error: ENOENT: no such file or directory, open " path
  | SyntaxError _ => "SyntaxError: Unexpected token"
  | Rejected _ => "command failed"
  end.

Definition pair : KeyPair := mkKeyPair "5f2b" "0x1a4c".

Definition parseKeyPairs (content : string) : option (list KeyPair) :=
  if String.eqb content "[pair]" then Some [pair]
  else if String.eqb content "[]" then Some []
  else None.

Definition runCommand (command : string)
    : Js.M (World unit) (thrown unit) string :=
  fun w =>
    if String.eqb command "./build/lasr_cli wallet new --save"
    then (Return "saved",
          mkWorld unit (env w)
            (<[resolve keypair_json := "[pair]"]> (files w))
            (console w) (outside w))
    else (Throw (Rejected tt), w).

Definition url (network : bool) : string :=
  if network then "http://stable" else "http://test".

Definition empty : World unit := mkWorld unit ∅ ∅ [] tt.

Definition with_wallet (content : string) : World unit :=
  mkWorld unit ∅ {[ resolve keypair_json := content ]} [] tt.

End Sample.

End Cli.

(** ** Part IV. Properties of the dispatcher *)

Section DispatcherFacts.
Import Js Contract.
Context {A P U S : Type}.

#[local] Abbreviation value := (Js.value A U).
#[local] Abbreviation strategy := (Contract.strategy A P U S).
#[local] Abbreviation table := (Contract.t A P U S).
#[local] Abbreviation ContractInput := (Contract.ContractInput P).

Implicit Types (this : table) (f g : strategy) (k : string).

(** Reading a name back after writing it yields the function written, for
    every name, [__proto__] included. *)
Lemma get_set this k f : get (set this k f) k = Some (Strategy f).
Proof.
  unfold get, set.
  destruct (String.eqb k ObjectPrototype.proto_key) eqn:Hk; simpl.
  - reflexivity.
  - by rewrite lookup_insert_eq.
Qed.

(** Under [Object.prototype] every name can be written. *)
Lemma assignable_plain this k : prototype this = None -> assignable this k = true.
Proof.
  intros Hproto. unfold assignable. rewrite Hproto. apply orb_true_r.
Qed.

(** A name whose read finds a stored function can be written: it is an own
    property, or it is [__proto__]. *)
Lemma assignable_stored this k f :
  get this k = Some (Strategy f) -> assignable this k = true.
Proof.
  unfold get, assignable.
  destruct (String.eqb k ObjectPrototype.proto_key); [reflexivity |].
  destruct (methodStrategies this !! k) as [f'|] eqn:Hown.
  - intros _. rewrite bool_decide_eq_true_2 by (by eexists). reflexivity.
  - destruct (prototype this); [discriminate |].
    destruct (ObjectPrototype.function_named k); discriminate.
Qed.

(** Under [Object.prototype] a registration without [extend] stores the
    function as it is. *)
Lemma register_plain this k f :
  prototype this = None ->
  addOrExtendMethodStrategy this k f false = Some (set this k f).
Proof.
  intros Hproto. unfold addOrExtendMethodStrategy, assign.
  by rewrite assignable_plain.
Qed.

(** An extending registration over a stored function wraps it. *)
Lemma register_extend this k f g :
  get this k = Some (Strategy f) ->
  addOrExtendMethodStrategy this k g true
  = Some (set this k (composed (Strategy f) g)).
Proof.
  intros Hget. unfold addOrExtendMethodStrategy, assign. rewrite Hget.
  cbn [mbind option_bind truthy]. by rewrite (assignable_stored _ _ f).
Qed.

(** Dispatch to a stored function calls it with two arguments. *)
Lemma execute_stored this f (a : A) (ci : ContractInput) :
  get this (contractFn ci) = Some (Strategy f) ->
  executeMethod this a ci = Some (f a ci VUndefined).
Proof. intros Hget. unfold executeMethod. by rewrite Hget. Qed.

(** C1. Dispatcher composition order: on a table whose prototype is
    [Object.prototype], after a base handler is registered for a method
    name and then extended with [H1] and with [H2], invoking the method
    runs the base handler first, passes its result to [H1] as third
    argument, and passes the result of [H1] to [H2] as third argument,
    whose result is the result of the call; [start] does the same on the
    unpacked input. *)
Theorem composition_order this (base H1 H2 : strategy) (a : A)
    (ci : ContractInput) :
  prototype this = None ->
  let m := contractFn ci in
  let invoke (run : table -> option (Js.M S value value)) :=
    c1 ← addOrExtendMethodStrategy this m base false;
    c2 ← addOrExtendMethodStrategy c1 m H1 true;
    c3 ← addOrExtendMethodStrategy c2 m H2 true;
    run c3 in
  let expected :=
    do r1 <- (do r0 <- base a ci VUndefined; H1 a ci r0); H2 a ci r1 in
  invoke (fun c => executeMethod c a ci) = Some expected
  /\ invoke (fun c => start c (mkInput a ci)) = Some expected.
Proof.
  intros Hproto m invoke expected.
  assert (Hrun : invoke (fun c => executeMethod c a ci) = Some expected).
  { unfold invoke. rewrite register_plain by exact Hproto.
    cbn [mbind option_bind].
    rewrite (register_extend _ _ base) by apply get_set.
    cbn [mbind option_bind].
    rewrite (register_extend _ _ (composed (Strategy base) H1))
      by apply get_set.
    cbn [mbind option_bind].
    erewrite execute_stored by apply get_set. reflexivity. }
  split; [exact Hrun | exact Hrun].
Qed.

(** C2, where the code diverges. On a fresh [Contract], a [contractFn] of
    ["toString"] was never registered, yet the table read finds the
    function inherited from [Object.prototype]: [executeMethod], and
    [start] with it, returns the string ["[object Undefined]"] and throws
    nothing. *)
Theorem unregistered_inherited_name_returns (a : A) (p : P) :
  let ci := mkContractInput "toString" p in
  (new : table).(methodStrategies) !! contractFn ci = None
  /\ executeMethod (new : table) a ci
     = Some (ret (VString "[object Undefined]"))
  /\ start (new : table) (mkInput a ci)
     = Some (ret (VString "[object Undefined]")).
Proof. repeat split. Qed.

(** X1. Outside the inherited names, a name that is not in the table is
    rejected: the call throws [Error("Unknown method: " + contractFn)]. *)
Lemma execute_unknown this (a : A) (ci : ContractInput) :
  prototype this = None ->
  methodStrategies this !! contractFn ci = None ->
  ObjectPrototype.inherited (contractFn ci) = false ->
  executeMethod this a ci
  = Some (throw (VError (String.append "Unknown method: " (contractFn ci)))).
Proof.
  intros Hproto Hown Hinh. unfold executeMethod, get.
  unfold ObjectPrototype.inherited in Hinh.
  apply orb_false_elim in Hinh as [Hk Hfn]. rewrite Hk, Hown, Hproto.
  destruct (ObjectPrototype.function_named (contractFn ci)) eqn:Hf.
  - rewrite bool_decide_eq_false in Hfn. destruct Hfn. by eexists.
  - reflexivity.
Qed.

(** X2. A name stored in the table dispatches to the stored function and
    returns exactly what it returns. *)
Lemma execute_registered this f (a : A) (ci : ContractInput) :
  contractFn ci <> ObjectPrototype.proto_key ->
  methodStrategies this !! contractFn ci = Some f ->
  executeMethod this a ci = Some (f a ci VUndefined).
Proof.
  intros Hk Hown. apply execute_stored. unfold get.
  apply String.eqb_neq in Hk. by rewrite Hk, Hown.
Qed.

(** C9, where the code diverges. On a fresh [Contract] no entry exists
    for ["toString"], yet an extending registration finds the function
    inherited from [Object.prototype] and wraps it: the entry becomes a
    composed function, and the handler is called with
    ["[object Undefined]"] as third argument, not as registered. *)
Theorem extend_over_inherited_name_wraps (h : strategy) (a : A) (p : P) :
  let ci := mkContractInput "toString" p in
  (new : table).(methodStrategies) !! "toString" = None
  /\ addOrExtendMethodStrategy (new : table) "toString" h true
     = Some (set new "toString"
               (composed (Builtin ObjectPrototype.toString) h))
  /\ (c ← addOrExtendMethodStrategy (new : table) "toString" h true;
      executeMethod c a ci)
     = Some (do r <- ret (VString "[object Undefined]"); h a ci r).
Proof. repeat split. Qed.

(** X3. On a table whose prototype is [Object.prototype], without
    [extend] the entry for the name becomes the handler itself, whatever
    was there before. *)
Lemma register_replaces this k f :
  prototype this = None ->
  exists c, addOrExtendMethodStrategy this k f false = Some c
            /\ get c k = Some (Strategy f).
Proof.
  intros Hproto. exists (set this k f).
  split; [by apply register_plain | apply get_set].
Qed.

(** X4. With [extend], when the read of the name finds nothing, the entry
    becomes the handler itself. *)
Lemma register_extend_absent this k f :
  get this k = Some Undefined ->
  exists c, addOrExtendMethodStrategy this k f true = Some c
            /\ get c k = Some (Strategy f).
Proof.
  intros Hget. exists (set this k f).
  split; [| apply get_set].
  unfold addOrExtendMethodStrategy, assign. rewrite Hget.
  cbn [mbind option_bind truthy].
  rewrite assignable_plain; [reflexivity |].
  unfold get in Hget.
  destruct (String.eqb k ObjectPrototype.proto_key);
    [by destruct (prototype this) |].
  destruct (methodStrategies this !! k); [discriminate |].
  by destruct (prototype this).
Qed.

(** Writing one name leaves the reads of the other names as they were. *)
Lemma get_set_other this k k' f :
  k <> ObjectPrototype.proto_key -> k' <> k -> get (set this k f) k' = get this k'.
Proof.
  intros Hk Hne. unfold get, set. apply String.eqb_neq in Hk. rewrite Hk.
  cbn [methodStrategies prototype]. by rewrite lookup_insert_ne.
Qed.

(** A registration that succeeds writes the name it was given. *)
Lemma register_writes this k f extend c :
  addOrExtendMethodStrategy this k f extend = Some c ->
  exists g, c = set this k g.
Proof.
  unfold addOrExtendMethodStrategy, assign.
  destruct (assignable this k), extend; try discriminate;
    try (intros [= <-]; by eauto);
    (destruct (get this k) as [p|]; [| discriminate]);
    cbn [mbind option_bind]; destruct (truthy p); try discriminate;
    intros [= <-]; eauto.
Qed.

(** X5. Registering or extending a method leaves the dispatch of every
    other method name as it was. *)
Theorem register_frame this k f extend c (a : A) (ci : ContractInput) :
  k <> ObjectPrototype.proto_key ->
  contractFn ci <> k ->
  addOrExtendMethodStrategy this k f extend = Some c ->
  executeMethod c a ci = executeMethod this a ci.
Proof.
  intros Hk Hne Hreg. apply register_writes in Hreg as [g ->].
  unfold executeMethod. by rewrite get_set_other.
Qed.

(** Extending a stored function by a list of handlers stores a function
    that, called with two arguments, runs the stages in order. *)
Lemma extendAll_stored hs : forall this k f (a : A) (ci : ContractInput),
  get this k = Some (Strategy f) ->
  exists c f', extendAll this k hs = Some c
    /\ get c k = Some (Strategy f')
    /\ f' a ci VUndefined = fold_left (stage a ci) hs (f a ci VUndefined).
Proof.
  induction hs as [|h hs IH]; intros this k f a ci Hget.
  - exists this, f. by repeat split.
  - cbn [extendAll]. rewrite (register_extend _ _ f) by exact Hget.
    cbn [mbind option_bind].
    destruct (IH (set this k (composed (Strategy f) h)) k
                (composed (Strategy f) h) a ci (get_set _ _ _))
      as (c & f' & Hc & Hget' & Hf').
    exists c, f'. by repeat split.
Qed.

(** Under [Object.prototype] a base registration followed by a list of
    extensions dispatches to the stages in order. *)
Lemma registered_chain this (base : strategy) (hs : list strategy) (a : A)
    (ci : ContractInput) :
  prototype this = None ->
  (c0 ← addOrExtendMethodStrategy this (contractFn ci) base false;
   c ← extendAll c0 (contractFn ci) hs;
   executeMethod c a ci)
  = Some (fold_left (stage a ci) hs (base a ci VUndefined)).
Proof.
  intros Hproto. rewrite register_plain by exact Hproto.
  cbn [mbind option_bind].
  destruct (extendAll_stored hs (set this (contractFn ci) base) (contractFn ci)
              base a ci (get_set _ _ _)) as (c & f' & -> & Hget & Hf').
  cbn [mbind option_bind]. rewrite (execute_stored c f') by exact Hget.
  by rewrite Hf'.
Qed.

(** X6. Extension composes linearly for any number of handlers: on a
    table whose prototype is [Object.prototype], after a base handler is
    registered and extended with the handlers of a list, invoking the
    method runs the base handler, then each handler of the list in
    registration order on the result of the one before. *)
Theorem extension_chain this (base : strategy) (hs : list strategy) (a : A)
    (ci : ContractInput) :
  prototype this = None ->
  (c0 ← addOrExtendMethodStrategy this (contractFn ci) base false;
   c ← extendAll c0 (contractFn ci) hs;
   executeMethod c a ci)
  = Some (fold_left (stage a ci) hs (base a ci VUndefined)).
Proof. apply registered_chain. Qed.

(** Once a computation has thrown, the stages put on it do not run. *)
Lemma stages_after_throw (a : A) (ci : ContractInput) hs :
  forall (first : Js.M S value value) s v s',
  first s = (Throw v, s') ->
  fold_left (stage a ci) hs first s = (Throw v, s').
Proof.
  induction hs as [|h hs IH]; intros first s v s' Hfirst; [exact Hfirst |].
  cbn [fold_left]. apply IH. unfold stage, bind. by rewrite Hfirst.
Qed.

(** X7. An exception ends the chain: on a table whose prototype is
    [Object.prototype], when the base handler followed by the first
    handlers of the list throws, the handlers registered after them are
    not run, and the call throws that value in the state the failing stage
    left. *)
Theorem extension_chain_throw this (base : strategy) (hs1 hs2 : list strategy)
    (a : A) (ci : ContractInput) (s s' : S) (v : value) :
  prototype this = None ->
  fold_left (stage a ci) hs1 (base a ci VUndefined) s = (Throw v, s') ->
  exists run,
    (c0 ← addOrExtendMethodStrategy this (contractFn ci) base false;
     c ← extendAll c0 (contractFn ci) (hs1 ++ hs2);
     executeMethod c a ci) = Some run
    /\ run s = (Throw v, s').
Proof.
  intros Hproto Hthrow. eexists. split; [by apply registered_chain |].
  rewrite fold_left_app. by apply stages_after_throw.
Qed.


End DispatcherFacts.

(** Concrete runs of the dispatcher on a fresh [Contract], with a handler
    that returns its third argument. *)
Section DispatcherExamples.
Import Js Contract.

Lemma composition_order_witness :
  prototype fresh = None
  /\ (c1 ← addOrExtendMethodStrategy fresh (contractFn mint) echo false;
      c2 ← addOrExtendMethodStrategy c1 (contractFn mint) echo true;
      c3 ← addOrExtendMethodStrategy c2 (contractFn mint) echo true;
      executeMethod c3 tt mint)
     = Some (do r1 <- (do r0 <- echo tt mint VUndefined; echo tt mint r0);
             echo tt mint r1)
  /\ (c1 ← addOrExtendMethodStrategy fresh (contractFn mint) echo false;
      c2 ← addOrExtendMethodStrategy c1 (contractFn mint) echo true;
      c3 ← addOrExtendMethodStrategy c2 (contractFn mint) echo true;
      start c3 (mkInput tt mint))
     = Some (do r1 <- (do r0 <- echo tt mint VUndefined; echo tt mint r0);
             echo tt mint r1).
Proof.
  split; [reflexivity |].
  apply (composition_order fresh echo echo echo tt mint). reflexivity.
Defined.

Lemma register_replaces_witness :
  prototype (set fresh "mint" failing) = None
  /\ exists c,
      addOrExtendMethodStrategy (set fresh "mint" failing) "mint" echo false
      = Some c
      /\ get c "mint" = Some (Strategy echo).
Proof.
  split; [reflexivity |].
  apply (register_replaces (set fresh "mint" failing) "mint" echo).
  reflexivity.
Defined.

Lemma extension_chain_witness :
  prototype fresh = None
  /\ (c0 ← addOrExtendMethodStrategy fresh (contractFn mint) echo false;
      c ← extendAll c0 (contractFn mint) [echo; failing; echo];
      executeMethod c tt mint)
     = Some (fold_left (stage tt mint) [echo; failing; echo]
               (echo tt mint VUndefined)).
Proof.
  split; [reflexivity |].
  apply (extension_chain fresh echo [echo; failing; echo] tt mint).
  reflexivity.
Defined.

Lemma execute_unknown_witness :
  prototype fresh = None
  /\ methodStrategies fresh !! contractFn mint = None
  /\ ObjectPrototype.inherited (contractFn mint) = false
  /\ executeMethod fresh tt mint
     = Some (throw (VError "Unknown method: mint")).
Proof.
  split; [reflexivity |]. split; [reflexivity |]. split; [reflexivity |].
  apply (execute_unknown fresh tt mint); reflexivity.
Defined.

Lemma execute_registered_witness :
  contractFn mint <> ObjectPrototype.proto_key
  /\ methodStrategies (set fresh "mint" echo) !! contractFn mint = Some echo
  /\ executeMethod (set fresh "mint" echo) tt mint
     = Some (echo tt mint VUndefined).
Proof.
  split; [discriminate |]. split; [reflexivity |].
  apply (execute_registered (set fresh "mint" echo) echo tt mint);
    [discriminate | reflexivity].
Defined.

Lemma register_extend_absent_witness :
  get fresh "mint" = Some Undefined
  /\ exists c, addOrExtendMethodStrategy fresh "mint" echo true = Some c
               /\ get c "mint" = Some (Strategy echo).
Proof.
  split; [reflexivity |].
  apply (register_extend_absent fresh "mint" echo). reflexivity.
Defined.

Lemma register_frame_witness :
  "mint" <> ObjectPrototype.proto_key
  /\ contractFn burn <> "mint"
  /\ addOrExtendMethodStrategy fresh "mint" echo false
     = Some (set fresh "mint" echo)
  /\ executeMethod (set fresh "mint" echo) tt burn
     = executeMethod fresh tt burn.
Proof.
  split; [discriminate |]. split; [discriminate |]. split; [reflexivity |].
  apply (register_frame fresh "mint" echo false (set fresh "mint" echo) tt burn);
    [discriminate | discriminate | reflexivity].
Defined.

Lemma extension_chain_throw_witness :
  prototype fresh = None
  /\ fold_left (stage tt mint) [] (failing tt mint VUndefined) tt
  = (Throw (VError "insufficient balance"), tt)
  /\ exists run,
      (c0 ← addOrExtendMethodStrategy fresh (contractFn mint) failing false;
       c ← extendAll c0 (contractFn mint) ([] ++ [echo]);
       executeMethod c tt mint) = Some run
      /\ run tt = (Throw (VError "insufficient balance"), tt).
Proof.
  split; [reflexivity |]. split; [reflexivity |].
  apply (extension_chain_throw fresh failing [] [echo] tt mint tt tt
           (VError "insufficient balance")); reflexivity.
Defined.

End DispatcherExamples.

(** ** Part V. Properties of the builders *)

Section BuilderFacts.
Context `{Programs}.

(** C5. Tag fidelity: whatever the state of the builder, [build()] of a
    create, update (both update builders), transfer and burn builder
    returns an instruction whose tag is exactly ["create"], ["update"],
    ["transfer"], ["burn"], carrying the payload of that variant, and whose
    wire object has that tag as its only top-level key. *)
Theorem tag_fidelity :
  (forall b, let i := returned CreateInstructionBuilder.build b in
     Instruction.kind i = "create"
     /\ is_Some (CreateInstructionBuilder.created i)
     /\ Json.keys (toJson i) = ["create"])
  /\ (forall b, let i := returned UpdateInstructionBuilder.build b in
     Instruction.kind i = "update"
     /\ is_Some (UpdateInstructionBuilder.updated i)
     /\ Json.keys (toJson i) = ["update"])
  /\ (forall b, let i := returned TokenUpdateBuilder.build b in
     Instruction.kind i = "update"
     /\ is_Some (TokenUpdateBuilder.updated i)
     /\ Json.keys (toJson i) = ["update"])
  /\ (forall b, let i := returned TransferInstructionBuilder.build b in
     Instruction.kind i = "transfer"
     /\ is_Some (TransferInstructionBuilder.transferred i)
     /\ Json.keys (toJson i) = ["transfer"])
  /\ (forall b, let i := returned BurnInstructionBuilder.build b in
     Instruction.kind i = "burn"
     /\ is_Some (BurnInstructionBuilder.burned i)
     /\ Json.keys (toJson i) = ["burn"]).
Proof.
  repeat split; intros; simpl; try reflexivity; by eexists.
Qed.

(** A chain of calls is the chain of its tail on the state its first call
    leaves. *)
Lemma chain_cons {B} (m : method B unit) (ms : list (method B unit)) (b : B) :
  chain (m :: ms) b = chain ms (after m b).
Proof. reflexivity. Qed.

Ltac by_chain_induction cs :=
  induction cs as [|c cs IH]; intros b;
  [ cbn; rewrite ?app_nil_r; reflexivity
  | rewrite map_cons, chain_cons, IH; destruct c; cbn;
    rewrite ?app_nil_r, <- ?app_assoc; reflexivity ].

Lemma TokenUpdateBuilder_updates cs : forall b,
  TokenUpdateBuilder.updates (chain (map TokenUpdateBuilder.invoke cs) b)
  = TokenUpdateBuilder.updates b
    ++ concat (map TokenUpdateBuilder.added_updates cs).
Proof. by_chain_induction cs. Qed.

Lemma TokenDistributionBuilder_tokenIds cs : forall b,
  TokenDistributionBuilder.tokenIds
    (chain (map TokenDistributionBuilder.invoke cs) b)
  = TokenDistributionBuilder.tokenIds b
    ++ concat (map TokenDistributionBuilder.added_tokenIds cs).
Proof. by_chain_induction cs. Qed.

Lemma TokenDistributionBuilder_updateFields cs : forall b,
  TokenDistributionBuilder.updateFields
    (chain (map TokenDistributionBuilder.invoke cs) b)
  = TokenDistributionBuilder.updateFields b
    ++ concat (map TokenDistributionBuilder.added_updateFields cs).
Proof. by_chain_induction cs. Qed.

Lemma CreateInstructionBuilder_distribution cs : forall b,
  CreateInstructionBuilder.distribution
    (chain (map CreateInstructionBuilder.invoke cs) b)
  = CreateInstructionBuilder.distribution b
    ++ concat (map CreateInstructionBuilder.added_distribution cs).
Proof. by_chain_induction cs. Qed.

Lemma UpdateInstructionBuilder_updates cs : forall b,
  UpdateInstructionBuilder.updates
    (chain (map UpdateInstructionBuilder.invoke cs) b)
  = UpdateInstructionBuilder.updates b
    ++ concat (map UpdateInstructionBuilder.added_updates cs).
Proof. by_chain_induction cs. Qed.

Lemma TransferInstructionBuilder_ids cs : forall b,
  TransferInstructionBuilder.ids
    (chain (map TransferInstructionBuilder.invoke cs) b)
  = TransferInstructionBuilder.ids b
    ++ concat (map TransferInstructionBuilder.added_ids cs).
Proof. by_chain_induction cs. Qed.

Lemma BurnInstructionBuilder_tokenIds cs : forall b,
  BurnInstructionBuilder.tokenIds
    (chain (map BurnInstructionBuilder.invoke cs) b)
  = BurnInstructionBuilder.tokenIds b
    ++ concat (map BurnInstructionBuilder.added_tokenIds cs).
Proof. by_chain_induction cs. Qed.

Lemma OutputBuilder_instructions cs : forall b,
  OutputBuilder.instructions (chain (map OutputBuilder.invoke cs) b)
  = OutputBuilder.instructions b
    ++ concat (map OutputBuilder.added_instructions cs).
Proof. by_chain_induction cs. Qed.

(** C6. Accumulate, do not replace, with order preserved: for every
    builder, every starting state and every sequence of calls, each list
    that [build()] emits is the list the builder already held followed by
    the items of the calls, call after call and item after item; no call
    removes or reorders what was added. In particular an [Outputs] lists
    its instructions in the order of the [addInstruction] calls. *)
Theorem accumulation_in_order :
  (forall cs b,
     let i := returned TokenUpdateBuilder.build
                (chain (map TokenUpdateBuilder.invoke cs) b) in
     UpdateInstruction.updates <$> TokenUpdateBuilder.updated i
     = Some (TokenUpdateBuilder.updates b
             ++ concat (map TokenUpdateBuilder.added_updates cs)))
  /\ (forall cs b,
     let d := returned TokenDistributionBuilder.build
                (chain (map TokenDistributionBuilder.invoke cs) b) in
     TokenDistribution.tokenIds d
     = TokenDistributionBuilder.tokenIds b
       ++ concat (map TokenDistributionBuilder.added_tokenIds cs)
     /\ TokenDistribution.updateFields d
       = map (fun f => Plain (toJson f))
           (TokenDistributionBuilder.updateFields b
            ++ concat (map TokenDistributionBuilder.added_updateFields cs)))
  /\ (forall cs b,
     let i := returned CreateInstructionBuilder.build
                (chain (map CreateInstructionBuilder.invoke cs) b) in
     CreateInstruction.distribution <$> CreateInstructionBuilder.created i
     = Some (CreateInstructionBuilder.distribution b
             ++ concat (map CreateInstructionBuilder.added_distribution cs)))
  /\ (forall cs b,
     let i := returned UpdateInstructionBuilder.build
                (chain (map UpdateInstructionBuilder.invoke cs) b) in
     UpdateInstruction.updates <$> UpdateInstructionBuilder.updated i
     = Some (UpdateInstructionBuilder.updates b
             ++ concat (map UpdateInstructionBuilder.added_updates cs)))
  /\ (forall cs b,
     let i := returned TransferInstructionBuilder.build
                (chain (map TransferInstructionBuilder.invoke cs) b) in
     TransferInstruction.ids <$> TransferInstructionBuilder.transferred i
     = Some (TransferInstructionBuilder.ids b
             ++ concat (map TransferInstructionBuilder.added_ids cs)))
  /\ (forall cs b,
     let i := returned BurnInstructionBuilder.build
                (chain (map BurnInstructionBuilder.invoke cs) b) in
     BurnInstruction.tokenIds <$> BurnInstructionBuilder.burned i
     = Some (BurnInstructionBuilder.tokenIds b
             ++ concat (map BurnInstructionBuilder.added_tokenIds cs)))
  /\ (forall cs b,
     let o := returned OutputBuilder.build
                (chain (map OutputBuilder.invoke cs) b) in
     Outputs.instructions o
     = OutputBuilder.instructions b
       ++ concat (map OutputBuilder.added_instructions cs))
  /\ (forall instructions,
     let o := returned OutputBuilder.build
                (chain (map OutputBuilder.addInstruction instructions)
                   OutputBuilder.new) in
     Outputs.instructions o = instructions).
Proof.
  repeat split; intros; cbn.
  - by rewrite map_id, TokenUpdateBuilder_updates.
  - by rewrite map_id, TokenDistributionBuilder_tokenIds.
  - by rewrite TokenDistributionBuilder_updateFields.
  - by rewrite CreateInstructionBuilder_distribution.
  - by rewrite UpdateInstructionBuilder_updates.
  - by rewrite TransferInstructionBuilder_ids.
  - by rewrite BurnInstructionBuilder_tokenIds.
  - by rewrite OutputBuilder_instructions.
  - change (map OutputBuilder.addInstruction instructions)
      with (map (fun i => OutputBuilder.invoke (OutputBuilder.AddInstruction i))
              instructions).
    rewrite <- (map_map OutputBuilder.AddInstruction OutputBuilder.invoke).
    rewrite OutputBuilder_instructions. cbn. rewrite map_map. cbn.
    induction instructions as [|i l IH]; [reflexivity | cbn; by rewrite IH].
Qed.

Ltac by_unset_induction cs f :=
  induction cs as [|c cs IH]; intros b Hcs Hb; [exact Hb |];
  apply Forall_cons in Hcs as [Hc Hcs];
  rewrite map_cons, chain_cons; apply IH; [exact Hcs |];
  destruct c, f; cbn in *; congruence.

Lemma TokenDistributionBuilder_unset cs f : forall b,
  Forall (fun c => TokenDistributionBuilder.target c <> f) cs ->
  TokenDistributionBuilder.unset f (returned TokenDistributionBuilder.build b) ->
  TokenDistributionBuilder.unset f
    (returned TokenDistributionBuilder.build
       (chain (map TokenDistributionBuilder.invoke cs) b)).
Proof. by_unset_induction cs f. Qed.

Lemma OutputBuilder_unset cs f : forall b,
  Forall (fun c => OutputBuilder.target c <> f) cs ->
  OutputBuilder.unset f (returned OutputBuilder.build b) ->
  OutputBuilder.unset f
    (returned OutputBuilder.build (chain (map OutputBuilder.invoke cs) b)).
Proof. by_unset_induction cs f. Qed.

Ltac by_payload_unset_induction cs f :=
  induction cs as [|c cs IH]; intros b Hcs Hb; [exact Hb |];
  apply Forall_cons in Hcs as [Hc Hcs];
  rewrite map_cons, chain_cons; apply IH; [exact Hcs |];
  destruct Hb as (x & Hx & Hf); injection Hx as <-;
  eexists; split; [reflexivity |];
  destruct c, f; cbn in *; congruence.

Lemma CreateInstructionBuilder_unset cs f : forall b,
  Forall (fun c => CreateInstructionBuilder.target c <> f) cs ->
  CreateInstructionBuilder.unset f (returned CreateInstructionBuilder.build b) ->
  CreateInstructionBuilder.unset f
    (returned CreateInstructionBuilder.build
       (chain (map CreateInstructionBuilder.invoke cs) b)).
Proof. by_payload_unset_induction cs f. Qed.

Lemma UpdateInstructionBuilder_unset cs f : forall b,
  Forall (fun c => UpdateInstructionBuilder.target c <> f) cs ->
  UpdateInstructionBuilder.unset f (returned UpdateInstructionBuilder.build b) ->
  UpdateInstructionBuilder.unset f
    (returned UpdateInstructionBuilder.build
       (chain (map UpdateInstructionBuilder.invoke cs) b)).
Proof.
  intros b Hcs Hb. destruct cs as [|c cs]; [exact Hb |].
  apply Forall_cons in Hcs as [Hc _]. destruct f. by destruct Hc.
Qed.

Lemma TransferInstructionBuilder_unset cs f : forall b,
  Forall (fun c => TransferInstructionBuilder.target c <> f) cs ->
  TransferInstructionBuilder.unset f
    (returned TransferInstructionBuilder.build b) ->
  TransferInstructionBuilder.unset f
    (returned TransferInstructionBuilder.build
       (chain (map TransferInstructionBuilder.invoke cs) b)).
Proof. by_payload_unset_induction cs f. Qed.

Lemma BurnInstructionBuilder_unset cs f : forall b,
  Forall (fun c => BurnInstructionBuilder.target c <> f) cs ->
  BurnInstructionBuilder.unset f (returned BurnInstructionBuilder.build b) ->
  BurnInstructionBuilder.unset f
    (returned BurnInstructionBuilder.build
       (chain (map BurnInstructionBuilder.invoke cs) b)).
Proof. by_payload_unset_induction cs f. Qed.

(** C4. Permissive builders: for each of the six builders and every
    sequence of setter calls on a new builder, [build()] returns a value
    (it has no failing path), and every field that none of the calls
    targets holds its default in that value: null for a scalar field, the
    empty list for a list field. *)
Theorem permissive_builders :
  (forall cs f,
     Forall (fun c => CreateInstructionBuilder.target c <> f) cs ->
     CreateInstructionBuilder.unset f
       (returned CreateInstructionBuilder.build
          (chain (map CreateInstructionBuilder.invoke cs)
             CreateInstructionBuilder.new)))
  /\ (forall cs f,
     Forall (fun c => TransferInstructionBuilder.target c <> f) cs ->
     TransferInstructionBuilder.unset f
       (returned TransferInstructionBuilder.build
          (chain (map TransferInstructionBuilder.invoke cs)
             TransferInstructionBuilder.new)))
  /\ (forall cs f,
     Forall (fun c => BurnInstructionBuilder.target c <> f) cs ->
     BurnInstructionBuilder.unset f
       (returned BurnInstructionBuilder.build
          (chain (map BurnInstructionBuilder.invoke cs)
             BurnInstructionBuilder.new)))
  /\ (forall cs f,
     Forall (fun c => TokenDistributionBuilder.target c <> f) cs ->
     TokenDistributionBuilder.unset f
       (returned TokenDistributionBuilder.build
          (chain (map TokenDistributionBuilder.invoke cs)
             TokenDistributionBuilder.new)))
  /\ (forall cs f,
     Forall (fun c => UpdateInstructionBuilder.target c <> f) cs ->
     UpdateInstructionBuilder.unset f
       (returned UpdateInstructionBuilder.build
          (chain (map UpdateInstructionBuilder.invoke cs)
             UpdateInstructionBuilder.new)))
  /\ (forall cs f,
     Forall (fun c => OutputBuilder.target c <> f) cs ->
     OutputBuilder.unset f
       (returned OutputBuilder.build
          (chain (map OutputBuilder.invoke cs) OutputBuilder.new))).
Proof.
  repeat split; intros cs f Hcs.
  - apply CreateInstructionBuilder_unset; [exact Hcs |].
    eexists; split; [reflexivity | by destruct f].
  - apply TransferInstructionBuilder_unset; [exact Hcs |].
    eexists; split; [reflexivity | by destruct f].
  - apply BurnInstructionBuilder_unset; [exact Hcs |].
    eexists; split; [reflexivity | by destruct f].
  - apply TokenDistributionBuilder_unset; [exact Hcs | by destruct f].
  - apply UpdateInstructionBuilder_unset; [exact Hcs |].
    eexists; split; reflexivity.
  - apply OutputBuilder_unset; [exact Hcs | by destruct f].
Qed.

(** C10. [build()] leaves the builder as it was: for every builder and
    every state, the fields after [build()] are the fields before it, a
    second [build()] returns a value equal to the first, and a setter
    called after a [build()] acts on the state accumulated before it. *)
Theorem build_leaves_builder_unchanged :
  (forall b, after TokenUpdateBuilder.build b = b
     /\ returned TokenUpdateBuilder.build (after TokenUpdateBuilder.build b)
        = returned TokenUpdateBuilder.build b
     /\ forall c, after (TokenUpdateBuilder.invoke c)
                    (after TokenUpdateBuilder.build b)
                  = after (TokenUpdateBuilder.invoke c) b)
  /\ (forall b, after TokenDistributionBuilder.build b = b
     /\ returned TokenDistributionBuilder.build
          (after TokenDistributionBuilder.build b)
        = returned TokenDistributionBuilder.build b
     /\ forall c, after (TokenDistributionBuilder.invoke c)
                    (after TokenDistributionBuilder.build b)
                  = after (TokenDistributionBuilder.invoke c) b)
  /\ (forall b, after CreateInstructionBuilder.build b = b
     /\ returned CreateInstructionBuilder.build
          (after CreateInstructionBuilder.build b)
        = returned CreateInstructionBuilder.build b
     /\ forall c, after (CreateInstructionBuilder.invoke c)
                    (after CreateInstructionBuilder.build b)
                  = after (CreateInstructionBuilder.invoke c) b)
  /\ (forall b, after UpdateInstructionBuilder.build b = b
     /\ returned UpdateInstructionBuilder.build
          (after UpdateInstructionBuilder.build b)
        = returned UpdateInstructionBuilder.build b
     /\ forall c, after (UpdateInstructionBuilder.invoke c)
                    (after UpdateInstructionBuilder.build b)
                  = after (UpdateInstructionBuilder.invoke c) b)
  /\ (forall b, after TransferInstructionBuilder.build b = b
     /\ returned TransferInstructionBuilder.build
          (after TransferInstructionBuilder.build b)
        = returned TransferInstructionBuilder.build b
     /\ forall c, after (TransferInstructionBuilder.invoke c)
                    (after TransferInstructionBuilder.build b)
                  = after (TransferInstructionBuilder.invoke c) b)
  /\ (forall b, after BurnInstructionBuilder.build b = b
     /\ returned BurnInstructionBuilder.build
          (after BurnInstructionBuilder.build b)
        = returned BurnInstructionBuilder.build b
     /\ forall c, after (BurnInstructionBuilder.invoke c)
                    (after BurnInstructionBuilder.build b)
                  = after (BurnInstructionBuilder.invoke c) b)
  /\ (forall b, after OutputBuilder.build b = b
     /\ returned OutputBuilder.build (after OutputBuilder.build b)
        = returned OutputBuilder.build b
     /\ forall c, after (OutputBuilder.invoke c) (after OutputBuilder.build b)
                  = after (OutputBuilder.invoke c) b).
Proof. repeat split. Qed.

(** What [TokenDistributionBuilder.build()] leaves in an identity slot. *)
Lemma flatten_flat v : flat (TokenDistributionBuilder.flatten v).
Proof. by destruct v as [[x|j]|]. Qed.

(** C3, as amended. Identity normalisation at build time is what
    [TokenDistributionBuilder] does: [build()] replaces [programId] and
    the receiver by their wire form when they are [AddressOrNamespace]
    instances and every update field by its wire form, so the built
    distribution holds no class instance in these places. The create,
    transfer and burn builders store the identity values, and the
    distributions, exactly as they were given. *)
Theorem identity_normalization :
  (forall b, let d := returned TokenDistributionBuilder.build b in
     TokenDistribution.programId d
     = match TokenDistributionBuilder.programId b with
       | Some (Instance v) => Some (Plain (toJson v))
       | other => other
       end
     /\ TokenDistribution.to d
       = match TokenDistributionBuilder.to b with
         | Some (Instance v) => Some (Plain (toJson v))
         | other => other
         end
     /\ TokenDistribution.updateFields d
       = map (fun f => Plain (toJson f)) (TokenDistributionBuilder.updateFields b)
     /\ flat (TokenDistribution.programId d)
     /\ flat (TokenDistribution.to d)
     /\ Forall (fun f => instanceof f = false) (TokenDistribution.updateFields d))
  /\ (forall b, exists c,
     CreateInstructionBuilder.created (returned CreateInstructionBuilder.build b)
     = Some c
     /\ CreateInstruction.programNamespace c
       = CreateInstructionBuilder.programNamespace b
     /\ CreateInstruction.programId c = CreateInstructionBuilder.programId b
     /\ CreateInstruction.distribution c
       = CreateInstructionBuilder.distribution b)
  /\ (forall b, exists x,
     TransferInstructionBuilder.transferred
       (returned TransferInstructionBuilder.build b) = Some x
     /\ TransferInstruction.transferFrom x
       = TransferInstructionBuilder.transferFrom b
     /\ TransferInstruction.transferTo x
       = TransferInstructionBuilder.transferTo b)
  /\ (forall b, exists x,
     BurnInstructionBuilder.burned (returned BurnInstructionBuilder.build b)
     = Some x
     /\ BurnInstruction.programId x = BurnInstructionBuilder.programId b
     /\ BurnInstruction.burnFrom x = BurnInstructionBuilder.burnFrom b).
Proof.
  split; [| repeat split; intros b; eexists; repeat split].
  intros b d. unfold d. cbn.
  split; [by destruct (TokenDistributionBuilder.programId b) as [[x|j]|] |].
  split; [by destruct (TokenDistributionBuilder.to b) as [[x|j]|] |].
  split; [reflexivity |].
  split; [apply flatten_flat |].
  split; [apply flatten_flat |].
  apply Forall_map, Forall_true. reflexivity.
Qed.

(** X9. The account and the token address given to a
    [TokenUpdateBuilder] never reach what it builds: two builders that
    hold, and are then given, the same update fields build equal
    instructions, whatever addresses they hold or are given. *)
Theorem token_update_builder_drops_addresses cs cs' b b' :
  TokenUpdateBuilder.updates b = TokenUpdateBuilder.updates b' ->
  concat (map TokenUpdateBuilder.added_updates cs)
  = concat (map TokenUpdateBuilder.added_updates cs') ->
  returned TokenUpdateBuilder.build (chain (map TokenUpdateBuilder.invoke cs) b)
  = returned TokenUpdateBuilder.build
      (chain (map TokenUpdateBuilder.invoke cs') b').
Proof.
  intros Hb Hcs. cbn. by rewrite !TokenUpdateBuilder_updates, Hb, Hcs.
Qed.

(** X10. Setters of different fields commute: on each builder, two calls
    that target different fields leave the same state in either order. *)
Theorem setters_commute :
  (forall c c' b,
     TokenDistributionBuilder.target c <> TokenDistributionBuilder.target c' ->
     after (TokenDistributionBuilder.invoke c)
       (after (TokenDistributionBuilder.invoke c') b)
     = after (TokenDistributionBuilder.invoke c')
         (after (TokenDistributionBuilder.invoke c) b))
  /\ (forall c c' b,
     CreateInstructionBuilder.target c <> CreateInstructionBuilder.target c' ->
     after (CreateInstructionBuilder.invoke c)
       (after (CreateInstructionBuilder.invoke c') b)
     = after (CreateInstructionBuilder.invoke c')
         (after (CreateInstructionBuilder.invoke c) b))
  /\ (forall c c' b,
     TransferInstructionBuilder.target c <> TransferInstructionBuilder.target c' ->
     after (TransferInstructionBuilder.invoke c)
       (after (TransferInstructionBuilder.invoke c') b)
     = after (TransferInstructionBuilder.invoke c')
         (after (TransferInstructionBuilder.invoke c) b))
  /\ (forall c c' b,
     BurnInstructionBuilder.target c <> BurnInstructionBuilder.target c' ->
     after (BurnInstructionBuilder.invoke c)
       (after (BurnInstructionBuilder.invoke c') b)
     = after (BurnInstructionBuilder.invoke c')
         (after (BurnInstructionBuilder.invoke c) b))
  /\ (forall c c' b,
     OutputBuilder.target c <> OutputBuilder.target c' ->
     after (OutputBuilder.invoke c) (after (OutputBuilder.invoke c') b)
     = after (OutputBuilder.invoke c') (after (OutputBuilder.invoke c) b)).
Proof.
  repeat split; intros c c' b; destruct c, c'; cbn; intros Hne;
    first [reflexivity | by destruct Hne].
Qed.

(** X11. The last write wins: on each builder, a setter of a scalar field
    called after another call on the same field leaves the state it would
    leave without that earlier call. *)
Theorem scalar_setter_overwrites :
  (forall c c' b,
     TokenDistributionBuilder.target c = TokenDistributionBuilder.target c' ->
     TokenDistributionBuilder.scalar (TokenDistributionBuilder.target c) = true ->
     after (TokenDistributionBuilder.invoke c)
       (after (TokenDistributionBuilder.invoke c') b)
     = after (TokenDistributionBuilder.invoke c) b)
  /\ (forall c c' b,
     CreateInstructionBuilder.target c = CreateInstructionBuilder.target c' ->
     CreateInstructionBuilder.scalar (CreateInstructionBuilder.target c) = true ->
     after (CreateInstructionBuilder.invoke c)
       (after (CreateInstructionBuilder.invoke c') b)
     = after (CreateInstructionBuilder.invoke c) b)
  /\ (forall c c' b,
     TransferInstructionBuilder.target c = TransferInstructionBuilder.target c' ->
     TransferInstructionBuilder.scalar (TransferInstructionBuilder.target c) = true ->
     after (TransferInstructionBuilder.invoke c)
       (after (TransferInstructionBuilder.invoke c') b)
     = after (TransferInstructionBuilder.invoke c) b)
  /\ (forall c c' b,
     BurnInstructionBuilder.target c = BurnInstructionBuilder.target c' ->
     BurnInstructionBuilder.scalar (BurnInstructionBuilder.target c) = true ->
     after (BurnInstructionBuilder.invoke c)
       (after (BurnInstructionBuilder.invoke c') b)
     = after (BurnInstructionBuilder.invoke c) b)
  /\ (forall c c' b,
     OutputBuilder.target c = OutputBuilder.target c' ->
     OutputBuilder.scalar (OutputBuilder.target c) = true ->
     after (OutputBuilder.invoke c) (after (OutputBuilder.invoke c') b)
     = after (OutputBuilder.invoke c) b).
Proof.
  repeat split; intros c c' b; destruct c, c'; cbn; intros Heq Hscalar;
    first [reflexivity | discriminate Heq | discriminate Hscalar].
Qed.

(** X12. Extending composes like concatenation: on each list of each
    builder, extending by [xs ++ ys] is extending by [xs] and then by
    [ys], extending by the empty list changes nothing, and where a
    single-item method exists, adding one item is extending by the list of
    that item. *)
Theorem extend_composes :
  (forall xs ys b,
     after (TokenDistributionBuilder.extendTokenIds (xs ++ ys)) b
     = after (TokenDistributionBuilder.extendTokenIds ys)
         (after (TokenDistributionBuilder.extendTokenIds xs) b))
  /\ (forall b, after (TokenDistributionBuilder.extendTokenIds []) b = b)
  /\ (forall x b,
     after (TokenDistributionBuilder.addTokenId x) b
     = after (TokenDistributionBuilder.extendTokenIds [x]) b)
  /\ (forall xs ys b,
     after (TokenDistributionBuilder.extendUpdateFields (xs ++ ys)) b
     = after (TokenDistributionBuilder.extendUpdateFields ys)
         (after (TokenDistributionBuilder.extendUpdateFields xs) b))
  /\ (forall b, after (TokenDistributionBuilder.extendUpdateFields []) b = b)
  /\ (forall x b,
     after (TokenDistributionBuilder.addUpdateField x) b
     = after (TokenDistributionBuilder.extendUpdateFields [x]) b)
  /\ (forall xs ys b,
     after (CreateInstructionBuilder.extendTokenDistribution (xs ++ ys)) b
     = after (CreateInstructionBuilder.extendTokenDistribution ys)
         (after (CreateInstructionBuilder.extendTokenDistribution xs) b))
  /\ (forall b, after (CreateInstructionBuilder.extendTokenDistribution []) b = b)
  /\ (forall x b,
     after (CreateInstructionBuilder.addTokenDistribution x) b
     = after (CreateInstructionBuilder.extendTokenDistribution [x]) b)
  /\ (forall xs ys b,
     after (UpdateInstructionBuilder.extendUpdates (xs ++ ys)) b
     = after (UpdateInstructionBuilder.extendUpdates ys)
         (after (UpdateInstructionBuilder.extendUpdates xs) b))
  /\ (forall b, after (UpdateInstructionBuilder.extendUpdates []) b = b)
  /\ (forall x b,
     after (UpdateInstructionBuilder.addUpdate x) b
     = after (UpdateInstructionBuilder.extendUpdates [x]) b)
  /\ (forall xs ys b,
     after (TransferInstructionBuilder.extendTokenIds (xs ++ ys)) b
     = after (TransferInstructionBuilder.extendTokenIds ys)
         (after (TransferInstructionBuilder.extendTokenIds xs) b))
  /\ (forall b, after (TransferInstructionBuilder.extendTokenIds []) b = b)
  /\ (forall xs b,
     after (TransferInstructionBuilder.addTokenIds xs) b
     = after (TransferInstructionBuilder.extendTokenIds xs) b)
  /\ (forall xs ys b,
     after (BurnInstructionBuilder.extendTokenIds (xs ++ ys)) b
     = after (BurnInstructionBuilder.extendTokenIds ys)
         (after (BurnInstructionBuilder.extendTokenIds xs) b))
  /\ (forall b, after (BurnInstructionBuilder.extendTokenIds []) b = b)
  /\ (forall x b,
     after (BurnInstructionBuilder.addTokenId x) b
     = after (BurnInstructionBuilder.extendTokenIds [x]) b).
Proof.
  repeat split; intros; try destruct b; cbn;
    rewrite ?app_nil_r, ?app_assoc; reflexivity.
Qed.

(** What is flat already is left alone. *)
Lemma flatten_fixed v :
  TokenDistributionBuilder.flatten (TokenDistributionBuilder.flatten v)
  = TokenDistributionBuilder.flatten v.
Proof. by destruct v as [[x|j]|]. Qed.

(** X13. Normalisation is idempotent: a [TokenDistributionBuilder] that
    holds the identity values of a distribution it built, with the same
    amount, token ids and update fields, builds that distribution again. *)
Theorem rebuild_from_built b :
  let d := returned TokenDistributionBuilder.build b in
  returned TokenDistributionBuilder.build
    (TokenDistributionBuilder.mk (TokenDistribution.programId d)
       (TokenDistribution.to d) (TokenDistributionBuilder.amount b)
       (TokenDistributionBuilder.tokenIds b)
       (TokenDistributionBuilder.updateFields b))
  = d.
Proof. cbn. by rewrite !flatten_fixed. Qed.

(** *** Arrays by reference *)

Lemma read_push {X} array (items : list X) store :
  is_Some (store !! array) ->
  Arrays.read array (Arrays.push array items store)
  = Arrays.read array store ++ items.
Proof.
  intros [old Hold]. unfold Arrays.read, Arrays.push.
  by rewrite lookup_alter_eq, Hold.
Qed.

Lemma read_push_other {X} array array' (items : list X) store :
  array <> array' ->
  Arrays.read array' (Arrays.push array items store) = Arrays.read array' store.
Proof.
  intros Hne. unfold Arrays.read, Arrays.push. by rewrite lookup_alter_ne.
Qed.

Lemma alloc_fresh {X} (items : list X) store :
  store !! (Arrays.alloc items store).1 = None.
Proof. cbn. apply not_elem_of_dom, is_fresh. Qed.

(** The arrays of the by-reference builders hold what the lists of the
    by-value builders hold. *)
Lemma by_reference_agrees :
  (forall (b : UpdateInstructionBuilderRef.t) store items,
     is_Some (store !! UpdateInstructionBuilderRef.updates b) ->
     Arrays.read (UpdateInstructionBuilderRef.updates b)
       (UpdateInstructionBuilderRef.extendUpdates items b store)
     = UpdateInstructionBuilder.updates
         (after (UpdateInstructionBuilder.extendUpdates items)
            (UpdateInstructionBuilder.mk
               (Arrays.read (UpdateInstructionBuilderRef.updates b) store))))
  /\ (forall (b : OutputBuilderRef.t) store instruction,
     is_Some (store !! OutputBuilderRef.instructions b) ->
     Arrays.read (OutputBuilderRef.instructions b)
       (OutputBuilderRef.addInstruction instruction b store)
     = OutputBuilder.instructions
         (after (OutputBuilder.addInstruction instruction)
            (OutputBuilder.mk (OutputBuilderRef.inputs b)
               (Arrays.read (OutputBuilderRef.instructions b) store)))).
Proof. split; intros; cbn; by apply read_push. Qed.

(** X21. What [build()] hands out is the builder's own array, or a copy.
    [UpdateInstructionBuilder] and [OutputBuilder] pass their array
    itself: an item added through the builder after [build()] shows in the
    array that was handed to the constructor. [TokenUpdateBuilder] passes
    the array made by [map]: it holds the items present at [build()] and
    later calls on the builder do not reach it. *)
Theorem build_shares_or_copies :
  (forall (b : UpdateInstructionBuilderRef.t) store update,
     is_Some (store !! UpdateInstructionBuilderRef.updates b) ->
     let (built, store1) := UpdateInstructionBuilderRef.build b store in
     Arrays.read built.2 store1
     = Arrays.read (UpdateInstructionBuilderRef.updates b) store
     /\ Arrays.read built.2
         (UpdateInstructionBuilderRef.addUpdate update b store1)
       = Arrays.read built.2 store1 ++ [update])
  /\ (forall (b : OutputBuilderRef.t) store instruction,
     is_Some (store !! OutputBuilderRef.instructions b) ->
     let (built, store1) := OutputBuilderRef.build b store in
     Arrays.read built.2 store1
     = Arrays.read (OutputBuilderRef.instructions b) store
     /\ Arrays.read built.2
         (OutputBuilderRef.addInstruction instruction b store1)
       = Arrays.read built.2 store1 ++ [instruction])
  /\ (forall (b : TokenUpdateBuilderRef.t) store updateField,
     is_Some (store !! TokenUpdateBuilderRef.updates b) ->
     let (built, store1) := TokenUpdateBuilderRef.build b store in
     Arrays.read built.2 store1
     = Arrays.read (TokenUpdateBuilderRef.updates b) store
     /\ Arrays.read built.2
         (TokenUpdateBuilderRef.addUpdateField updateField b store1)
       = Arrays.read built.2 store1
     /\ Arrays.read (TokenUpdateBuilderRef.updates b)
         (TokenUpdateBuilderRef.addUpdateField updateField b store1)
       = Arrays.read (TokenUpdateBuilderRef.updates b) store ++ [updateField]).
Proof.
  split; [| split].
  - intros b store update Hb. cbn. split; [reflexivity |].
    by apply read_push.
  - intros b store instruction Hb. cbn. split; [reflexivity |].
    by apply read_push.
  - intros b store updateField Hb.
    unfold TokenUpdateBuilderRef.build, TokenUpdateBuilderRef.addUpdateField,
      Arrays.alloc.
    set (copy := fresh (dom store)).
    assert (Hfresh : store !! copy = None) by apply not_elem_of_dom, is_fresh.
    assert (Hne : TokenUpdateBuilderRef.updates b <> copy).
    { intros Heq. rewrite Heq, Hfresh in Hb. by destruct Hb. }
    cbn [snd]. split; [| split].
    + unfold Arrays.read at 1. rewrite lookup_insert_eq. cbn. apply map_id.
    + by apply read_push_other.
    + rewrite read_push.
      * f_equal. unfold Arrays.read. by rewrite lookup_insert_ne.
      * by rewrite lookup_insert_ne.
Qed.

End BuilderFacts.

(** Concrete runs of the builders, with update fields carried as wire
    values. *)
Section BuilderExamples.
#[local] Existing Instance wire_programs.

(** C3, as stated, fails: a create, a transfer and a burn builder given
    an [AddressOrNamespace] instance each return an instruction that still
    holds the instance, not its wire form. *)
Lemma builders_keep_identity_instances :
  let ns := Instance (OfNamespace "token") in
  (exists c,
     CreateInstructionBuilder.created
       (returned CreateInstructionBuilder.build
          (chain [CreateInstructionBuilder.setProgramId ns]
             CreateInstructionBuilder.new)) = Some c
     /\ ~ flat (CreateInstruction.programId c))
  /\ (exists x,
     TransferInstructionBuilder.transferred
       (returned TransferInstructionBuilder.build
          (chain [TransferInstructionBuilder.setTransferTo ns]
             TransferInstructionBuilder.new)) = Some x
     /\ ~ flat (TransferInstruction.transferTo x))
  /\ (exists x,
     BurnInstructionBuilder.burned
       (returned BurnInstructionBuilder.build
          (chain [BurnInstructionBuilder.setBurnFromAddress ns]
             BurnInstructionBuilder.new)) = Some x
     /\ ~ flat (BurnInstruction.burnFrom x)).
Proof.
  repeat split; eexists; (split; [reflexivity | cbn; tauto]).
Qed.

(** A partly filled create builder: the owner was never set and is null
    in the built instruction. *)
Lemma permissive_builders_witness :
  CreateInstructionBuilder.unset CreateInstructionBuilder.ProgramOwner
    (returned CreateInstructionBuilder.build
       (chain (map CreateInstructionBuilder.invoke
                 [CreateInstructionBuilder.SetProgramId
                    (Instance (OfNamespace "token"));
                  CreateInstructionBuilder.SetTotalSupply "100"])
          CreateInstructionBuilder.new)).
Proof.
  apply (proj1 permissive_builders). repeat constructor; discriminate.
Defined.

Lemma token_update_builder_drops_addresses_witness :
  let given := [TokenUpdateBuilder.AddUpdateAccountAddress
                  (Instance (OfNamespace "token"));
                TokenUpdateBuilder.AddUpdateField sample_update] in
  let plain := [TokenUpdateBuilder.AddUpdateField sample_update] in
  returned TokenUpdateBuilder.build
    (chain (map TokenUpdateBuilder.invoke given) TokenUpdateBuilder.new)
  = returned TokenUpdateBuilder.build
      (chain (map TokenUpdateBuilder.invoke plain) TokenUpdateBuilder.new).
Proof.
  apply (token_update_builder_drops_addresses
    [TokenUpdateBuilder.AddUpdateAccountAddress (Instance (OfNamespace "token"));
     TokenUpdateBuilder.AddUpdateField sample_update]
    [TokenUpdateBuilder.AddUpdateField sample_update]
    TokenUpdateBuilder.new TokenUpdateBuilder.new); reflexivity.
Defined.

Lemma setters_commute_witness :
  let c := CreateInstructionBuilder.SetProgramId (Instance (OfNamespace "token")) in
  let c' := CreateInstructionBuilder.SetTotalSupply "100" in
  CreateInstructionBuilder.target c <> CreateInstructionBuilder.target c'
  /\ after (CreateInstructionBuilder.invoke c)
       (after (CreateInstructionBuilder.invoke c') CreateInstructionBuilder.new)
     = after (CreateInstructionBuilder.invoke c')
         (after (CreateInstructionBuilder.invoke c) CreateInstructionBuilder.new).
Proof.
  split; [discriminate |].
  apply (proj1 (proj2 setters_commute)). discriminate.
Defined.

Lemma scalar_setter_overwrites_witness :
  let c := CreateInstructionBuilder.SetTotalSupply "100" in
  let c' := CreateInstructionBuilder.SetTotalSupply "1" in
  CreateInstructionBuilder.target c = CreateInstructionBuilder.target c'
  /\ CreateInstructionBuilder.scalar (CreateInstructionBuilder.target c) = true
  /\ after (CreateInstructionBuilder.invoke c)
       (after (CreateInstructionBuilder.invoke c') CreateInstructionBuilder.new)
     = after (CreateInstructionBuilder.invoke c) CreateInstructionBuilder.new.
Proof.
  split; [reflexivity |]. split; [reflexivity |].
  apply (proj1 (proj2 scalar_setter_overwrites)); reflexivity.
Defined.

Lemma build_shares_or_copies_witness :
  let b := OutputBuilderRef.mk None 1%positive in
  let store : gmap Arrays.loc (list Instruction.t) := {[ 1%positive := [] ]} in
  let burn := Instruction.mk "burn"
                (Instruction.Burn (BurnInstruction.mk None None None None None [])) in
  is_Some (store !! OutputBuilderRef.instructions b)
  /\ let (built, store1) := OutputBuilderRef.build b store in
     Arrays.read built.2 store1
     = Arrays.read (OutputBuilderRef.instructions b) store
     /\ Arrays.read built.2 (OutputBuilderRef.addInstruction burn b store1)
       = Arrays.read built.2 store1 ++ [burn].
Proof.
  split; [exists []; apply lookup_singleton_eq |].
  apply (proj1 (proj2 build_shares_or_copies)).
  exists []. apply lookup_singleton_eq.
Defined.

End BuilderExamples.

(** ** Part VI. Properties of the amount codec *)

Section CodecFacts.
Import Codec.
Local Open Scope N_scope.

Implicit Types (s t : chars) (c : ascii) (r n v acc : N).

(** *** Digits *)

Lemma digit_value_char d : d < 16 -> digit_value (digit_char d) = Some d.
Proof.
  intros Hd. rewrite <- (N2Nat.id d).
  assert (Hn : (N.to_nat d < 16)%nat) by lia.
  generalize dependent (N.to_nat d). intros k Hk.
  do 16 (destruct k as [|k]; [reflexivity |]). lia.
Qed.

Lemma digit_char_value c d : digit_value c = Some d -> digit_char d = c.
Proof.
  destruct c as [[] [] [] [] [] [] [] []]; intros Hc; vm_compute in Hc;
    first [discriminate Hc | injection Hc as <-; reflexivity].
Qed.

Lemma digit_value_bound c d : digit_value c = Some d -> d < 16.
Proof.
  destruct c as [[] [] [] [] [] [] [] []]; intros Hc; vm_compute in Hc;
    first [discriminate Hc | injection Hc as <-; reflexivity].
Qed.

Lemma is_zero_spec c : is_zero c = true <-> c = zero.
Proof. apply Ascii.eqb_eq. Qed.

(** *** Reading digits *)

Lemma parse_from_app r s t : forall acc,
  parse_from r acc (s ++ t) = parse_from r acc s ≫= fun v => parse_from r v t.
Proof.
  induction s as [|c s IH]; intros acc; [reflexivity |].
  cbn. destruct (digit_value c) as [d|]; [| reflexivity].
  destruct (d <? r); [apply IH | reflexivity].
Qed.

(** The accumulator only shifts the value read. *)
Lemma parse_from_acc r s : forall acc,
  parse_from r acc s
  = (fun v => acc * r ^ N.of_nat (length s) + v) <$> parse_from r 0 s.
Proof.
  induction s as [|c s IH]; intros acc.
  - cbn. f_equal. lia.
  - cbn [parse_from]. destruct (digit_value c) as [d|]; [| reflexivity].
    destruct (d <? r); [| reflexivity].
    rewrite (IH (acc * r + d)), (IH (0 * r + d)).
    destruct (parse_from r 0 s) as [v|]; [| reflexivity].
    cbn. f_equal. rewrite Nat2N.inj_succ, N.pow_succ_r'. lia.
Qed.

Lemma parse_bound r s v : parse r s = Some v -> v < r ^ N.of_nat (length s).
Proof.
  unfold parse. revert v. induction s as [|c s IH]; intros v.
  - cbn. intros [= <-]. lia.
  - cbn [parse_from]. destruct (digit_value c) as [d|]; [| discriminate].
    destruct (N.ltb_spec d r) as [Hd|]; [| discriminate].
    rewrite parse_from_acc.
    destruct (parse_from r 0 s) as [v0|]; [| discriminate].
    cbn. intros [= <-]. specialize (IH v0 eq_refl).
    rewrite Nat2N.inj_succ, N.pow_succ_r'. nia.
Qed.

Lemma parse_app r s t :
  parse r (s ++ t)
  = parse r s ≫= fun v =>
    (fun w => v * r ^ N.of_nat (length t) + w) <$> parse r t.
Proof.
  unfold parse. rewrite parse_from_app.
  destruct (parse_from r 0 s) as [v|]; [| reflexivity].
  cbn. apply parse_from_acc.
Qed.

Lemma parse_snoc r s c :
  parse r (s ++ [c])
  = parse r s ≫= fun v =>
    match digit_value c with
    | Some d => if d <? r then Some (v * r + d) else None
    | None => None
    end.
Proof.
  unfold parse. rewrite parse_from_app.
  destruct (parse_from r 0 s) as [v|]; reflexivity.
Qed.

(** Zeros in front do not change the value read. *)
Lemma parse_zeros r k s :
  0 < r -> parse r (replicate k zero ++ s) = parse r s.
Proof.
  intros Hr. unfold parse. induction k as [|k IH]; [reflexivity |].
  cbn [replicate app parse_from].
  change (digit_value zero) with (Some 0).
  rewrite N.mul_0_l, N.add_0_l.
  replace (0 <? r) with true by (symmetry; apply N.ltb_lt; exact Hr).
  exact IH.
Qed.

(** Decimal digits always read. *)
Lemma parse_digits s :
  forallb is_decimal_digit s = true -> is_Some (parse 10 s).
Proof.
  unfold parse. generalize 0. induction s as [|c s IH]; intros acc Hs.
  - by eexists.
  - cbn in Hs. apply andb_prop in Hs as [Hc Hs]. cbn [parse_from].
    unfold is_decimal_digit in Hc.
    destruct (digit_value c) as [d|]; [| discriminate].
    rewrite Hc. by apply IH.
Qed.

(** *** Writing digits *)

(** Any fuel that covers the bits of a number writes the same digits. *)
Lemma render_fuel_enough r f1 : forall f2 n,
  2 <= r -> n < 2 ^ N.of_nat f1 -> n < 2 ^ N.of_nat f2 ->
  render_fuel (S f1) r n = render_fuel (S f2) r n.
Proof.
  induction f1 as [|f1 IH]; intros f2 n Hr H1 H2.
  - cbn in H1. assert (n = 0) as -> by lia.
    cbn [render_fuel]. by destruct (N.ltb_spec 0 r); [| lia].
  - cbn [render_fuel]. fold (render_fuel (S f1) r (n / r)).
    destruct (N.ltb_spec n r) as [Hn|Hn]; [reflexivity |].
    destruct f2 as [|f2]; [cbn in H2; lia |].
    f_equal. fold (render_fuel (S f2) r (n / r)).
    rewrite Nat2N.inj_succ, N.pow_succ_r' in H1, H2.
    apply IH; [exact Hr | |]; apply N.Div0.div_lt_upper_bound; nia.
Qed.

Lemma render_small r n : n < r -> render r n = [digit_char n].
Proof.
  intros Hn. unfold render. cbn [render_fuel].
  destruct (N.ltb_spec n r); [| lia]. by rewrite N.mod_small.
Qed.

Lemma render_step r n :
  2 <= r -> r <= n ->
  render r n = render r (n / r) ++ [digit_char (n mod r)].
Proof.
  intros Hr Hn. unfold render at 1. cbn [render_fuel].
  destruct (N.ltb_spec n r); [lia |]. f_equal.
  pose proof (N.size_gt n) as Hsize.
  destruct (N.to_nat (N.size n)) as [|f] eqn:Hf.
  { assert (N.size n = 0) as Hz by lia. rewrite Hz in Hsize. cbn in Hsize. lia. }
  assert (N.size n = N.succ (N.of_nat f)) as Hs by lia.
  rewrite Hs, N.pow_succ_r' in Hsize.
  apply render_fuel_enough; [exact Hr | | ].
  - apply N.Div0.div_lt_upper_bound. nia.
  - rewrite N2Nat.id. apply N.size_gt.
Qed.

Lemma render_nonempty r n : render r n <> [].
Proof.
  unfold render. cbn [render_fuel]. intros E.
  by apply app_eq_nil in E as [_ ?].
Qed.

(** Reading back what was written gives the number. *)
Lemma parse_render r n : 2 <= r <= 16 -> parse r (render r n) = Some n.
Proof.
  intros [Hr Hr']. induction n as [n IH] using (well_founded_induction N.lt_wf_0).
  destruct (N.lt_ge_cases n r) as [Hn|Hn].
  - rewrite render_small by exact Hn. unfold parse. cbn [parse_from].
    rewrite digit_value_char by lia.
    destruct (N.ltb_spec n r); [| lia]. f_equal; lia.
  - rewrite render_step, parse_snoc by assumption.
    rewrite IH by (apply N.div_lt; lia). cbn.
    assert (n mod r < r) as Hm by (apply N.mod_lt; lia).
    rewrite digit_value_char by lia.
    destruct (N.ltb_spec (n mod r) r); [| lia].
    f_equal. rewrite (N.div_mod n r) at 3 by lia. lia.
Qed.

(** *** Insignificant zeros *)

Lemma strip_snoc s c :
  s <> [] ->
  strip_leading_zeros (s ++ [c])
  = if bool_decide (strip_leading_zeros s = [zero]) then [c]
    else strip_leading_zeros s ++ [c].
Proof.
  induction s as [|a s IH]; intros Hs; [done |].
  destruct s as [|b s].
  - cbn. destruct (is_zero a) eqn:Ha.
    + apply is_zero_spec in Ha as ->. reflexivity.
    + rewrite bool_decide_eq_false_2; [reflexivity |].
      intros [= ->]. by rewrite (proj2 (is_zero_spec zero)) in Ha.
  - change (strip_leading_zeros ((a :: b :: s) ++ [c]))
      with (if is_zero a then strip_leading_zeros ((b :: s) ++ [c])
            else (a :: b :: s) ++ [c]).
    change (strip_leading_zeros (a :: b :: s))
      with (if is_zero a then strip_leading_zeros (b :: s) else a :: b :: s).
    destruct (is_zero a); [by apply IH |].
    by rewrite bool_decide_eq_false_2.
Qed.

Lemma strip_length s : (length (strip_leading_zeros s) <= length s)%nat.
Proof.
  induction s as [|a s IH]; [done |]. destruct s as [|b s]; [done |].
  change (strip_leading_zeros (a :: b :: s))
    with (if is_zero a then strip_leading_zeros (b :: s) else a :: b :: s).
  destruct (is_zero a); cbn [length] in *; lia.
Qed.

(** Padding with zeros restores what stripping removed. *)
Lemma padStart_strip s :
  padStart (length s) zero (strip_leading_zeros s) = s.
Proof.
  unfold padStart. induction s as [|a s IH]; [reflexivity |].
  destruct s as [|b s]; [reflexivity |].
  change (strip_leading_zeros (a :: b :: s))
    with (if is_zero a then strip_leading_zeros (b :: s) else a :: b :: s).
  destruct (is_zero a) eqn:Ha.
  - apply is_zero_spec in Ha as ->.
    pose proof (strip_length (b :: s)).
    replace (length (zero :: b :: s) - length (strip_leading_zeros (b :: s)))%nat
      with (S (length (b :: s) - length (strip_leading_zeros (b :: s))))
      by (cbn [length] in *; lia).
    cbn [replicate app]. by rewrite IH.
  - by rewrite Nat.sub_diag.
Qed.

Lemma trim_zeros k : trim_trailing_zeros (replicate k zero) = [].
Proof. induction k as [|k IH]; [reflexivity |]. cbn. by rewrite IH. Qed.

(** Zeros added at the end of a fraction are trimmed again. *)
Lemma trim_padEnd s k :
  trim_trailing_zeros (s ++ replicate k zero) = trim_trailing_zeros s.
Proof.
  induction s as [|a s IH]; [apply trim_zeros |].
  cbn. by rewrite IH.
Qed.

(** Writing the number read from a digit sequence gives the sequence
    without its leading zeros. *)
Lemma render_parse r s v :
  2 <= r <= 16 -> s <> [] -> parse r s = Some v ->
  render r v = strip_leading_zeros s.
Proof.
  intros Hr. revert v. induction s as [|c s IH] using rev_ind; [done |].
  intros v _. rewrite parse_snoc.
  destruct (parse r s) as [v'|] eqn:Hs; [| discriminate].
  cbn [mbind option_bind].
  destruct (digit_value c) as [d|] eqn:Hc; [| discriminate].
  destruct (N.ltb_spec d r) as [Hd|]; [| discriminate]. intros [= <-].
  apply digit_char_value in Hc as <-.
  destruct s as [|a s].
  { assert (v' = 0) as -> by (by injection Hs).
    by rewrite N.mul_0_l, N.add_0_l, render_small by lia. }
  rewrite strip_snoc by done.
  rewrite <- (IH v') by done.
  destruct (N.eq_dec v' 0) as [->|Hv'].
  - rewrite !render_small by lia. reflexivity.
  - rewrite render_step by nia.
    replace ((v' * r + d) / r) with v'
      by (apply (N.div_unique _ r v' d); lia).
    replace ((v' * r + d) mod r) with d
      by (apply (N.mod_unique _ r v' d); lia).
    rewrite bool_decide_eq_false_2; [reflexivity |].
    intros Hz. pose proof (parse_render r v' Hr) as Hp.
    rewrite Hz in Hp.
    change [zero] with (replicate 1 zero ++ []) in Hp.
    rewrite parse_zeros in Hp by lia. by injection Hp.
Qed.

(** An integer part that does not start with a zero, or is a single
    digit, is canonical as it stands: on such amounts the canonical form
    only trims the end of the fraction. *)
Lemma canonical_trimmed (d : string) :
  leading_zero d = false -> canonical d = trimmed d.
Proof.
  unfold leading_zero, canonical, trimmed, canonical_chars, trimmed_chars.
  destruct (split_dot _) as [whole fraction]. cbn [fst]. intros Hz.
  destruct whole as [|c [|b whole]]; [reflexivity | reflexivity |].
  cbn [strip_leading_zeros]. by rewrite Hz.
Qed.

(** *** The two directions of the codec *)

Lemma forallb_digits_zeros k :
  forallb is_decimal_digit (replicate k zero) = true.
Proof. induction k as [|k IH]; [reflexivity | exact IH]. Qed.

(** The integer read from an amount is its integer part times the scale
    plus its fraction, padded to 18 digits. *)
Lemma parseAmountToBigInt_value strict s whole fraction :
  split_dot s = (whole, fraction) ->
  whole <> [] ->
  forallb is_decimal_digit whole = true ->
  forallb is_decimal_digit (default [] fraction) = true ->
  (length (default [] fraction) <= decimals)%nat ->
  exists W F,
    parse 10 whole = Some W
    /\ parse 10 (padEnd decimals zero (default [] fraction)) = Some F
    /\ F < scale
    /\ parseAmountToBigInt strict s = Some (W * scale + F).
Proof.
  intros Hsplit Hne Hw Hf Hlen. set (f := default [] fraction) in *.
  destruct (parse_digits whole Hw) as [W HW].
  assert (Hpad : forallb is_decimal_digit (padEnd decimals zero f) = true).
  { unfold padEnd. rewrite forallb_app, Hf. apply forallb_digits_zeros. }
  destruct (parse_digits _ Hpad) as [F HF].
  assert (Hlen18 : length (padEnd decimals zero f) = decimals).
  { unfold padEnd. rewrite length_app, length_replicate. lia. }
  exists W, F. split; [exact HW |]. split; [exact HF |].
  split.
  { apply parse_bound in HF. by rewrite Hlen18 in HF. }
  unfold parseAmountToBigInt. rewrite Hsplit. fold f.
  rewrite bool_decide_eq_false_2 by exact Hne.
  rewrite (bool_decide_eq_false_2 (decimals < length f)%nat) by lia.
  rewrite andb_false_r, take_ge by lia.
  rewrite parse_app, HW, Hlen18. cbn [mbind option_bind].
  by rewrite HF.
Qed.

(** Reading a hex form gives back the integer it was written from,
    divided by the scale. *)
Lemma hexToAmount_formatBigIntToHex n :
  hexToAmount (formatBigIntToHex n)
  = Some (join (render 10 (n / scale))
            (trim_trailing_zeros
               (padStart decimals zero (render 10 (n mod scale))))).
Proof.
  unfold hexToAmount, formatBigIntToHex.
  rewrite bool_decide_eq_false_2.
  - assert (parse 16 (padStart 64 zero (render 16 n)) = Some n) as ->.
    { unfold padStart. by rewrite parse_zeros, parse_render by lia. }
    reflexivity.
  - unfold padStart. intros E.
    apply app_eq_nil in E as [_ E]. by apply render_nonempty in E.
Qed.

Lemma hex_round_trip_chars strict s :
  decimal_chars s = true ->
  (length (default [] (split_dot s).2) <= decimals)%nat ->
  exists h, amountToHex strict s = Some h
            /\ hexToAmount h = Some (canonical_chars s).
Proof.
  unfold decimal_chars, canonical_chars.
  destruct (split_dot s) as [whole fraction] eqn:Hsplit. cbn [snd].
  intros Hdec Hlen.
  apply andb_prop in Hdec as [Hdec Hf]. apply andb_prop in Hdec as [Hne Hw].
  apply negb_true_iff, bool_decide_eq_false in Hne.
  destruct (parseAmountToBigInt_value strict s whole fraction)
    as (W & F & HW & HF & HFlt & Hvalue); try assumption.
  set (f := default [] fraction) in *.
  exists (formatBigIntToHex (W * scale + F)). split.
  { unfold amountToHex. by rewrite Hvalue. }
  rewrite hexToAmount_formatBigIntToHex.
  replace ((W * scale + F) / scale) with W
    by (apply (N.div_unique _ scale W F); lia).
  replace ((W * scale + F) mod scale) with F
    by (apply (N.mod_unique _ scale W F); lia).
  assert (Hlen18 : length (padEnd decimals zero f) = decimals).
  { unfold padEnd. rewrite length_app, length_replicate. lia. }
  rewrite (render_parse 10 whole W) by (lia || assumption).
  rewrite (render_parse 10 (padEnd decimals zero f) F);
    [| lia | by destruct (padEnd decimals zero f) | exact HF].
  rewrite <- Hlen18 at 1. rewrite padStart_strip.
  unfold padEnd. by rewrite trim_padEnd.
Qed.

(** C7. Codec round trip: for every non-negative decimal string [d] with
    at most 18 fractional digits, strict parsing or not, converting [d] to
    its scaled hex form succeeds and converting that back yields the
    canonical form of [d], the decimal string without its insignificant
    zeros; when the integer part of [d] has no leading zero, that is [d]
    with the trailing zeros of its fraction stripped. *)
Theorem codec_round_trip (strict : bool) (d : string) :
  decimal_string d = true ->
  (fraction_digits d <= 18)%nat ->
  exists h, formatAmountToHex strict d = Some h
            /\ formatHexToAmount h = Some (canonical d)
            /\ (leading_zero d = false -> canonical d = trimmed d).
Proof.
  intros Hd Hlen.
  destruct (hex_round_trip_chars strict (String.list_ascii_of_string d) Hd Hlen)
    as (h & Hh & Hback).
  exists (String.string_of_list_ascii h). split; [| split].
  - unfold formatAmountToHex. by rewrite Hh.
  - unfold formatHexToAmount, canonical.
    by rewrite String.list_ascii_of_string_of_list_ascii, Hback.
  - apply canonical_trimmed.
Qed.

(** C8. Scale correctness: the amount ["1"] is read as exactly the integer
    10^18 and written as [0x] followed by 64 lower-case hex digits that end
    in [0de0b6b3a7640000]; read as a hexadecimal number these digits are
    10^18 again. All arithmetic is on arbitrary-precision integers. *)
Theorem scale_correctness (strict : bool) :
  let digits :=
    "0000000000000000000000000000000000000000000000000de0b6b3a7640000" in
  parseAmountToBigInt strict (String.list_ascii_of_string "1") = Some (10 ^ 18)
  /\ formatAmountToHex strict "1" = Some (String.append "0x" digits)
  /\ String.length digits = 64%nat
  /\ parse 16 (String.list_ascii_of_string digits) = Some (10 ^ 18).
Proof. destruct strict; repeat split; vm_compute; reflexivity. Qed.

End CodecFacts.

(** The round trip on [0.00000000001], which is written as 10^7 =
    [0x989680] and read back as it was. *)
Lemma codec_round_trip_witness :
  Codec.decimal_string "0.00000000001" = true
  /\ (Codec.fraction_digits "0.00000000001" <= 18)%nat
  /\ exists h, Codec.formatAmountToHex true "0.00000000001" = Some h
               /\ Codec.formatHexToAmount h
                  = Some (Codec.canonical "0.00000000001")
               /\ (Codec.leading_zero "0.00000000001" = false ->
                   Codec.canonical "0.00000000001"
                   = Codec.trimmed "0.00000000001").
Proof.
  split; [reflexivity |]. split; [vm_compute; lia |].
  apply (codec_round_trip true "0.00000000001"); [reflexivity |].
  vm_compute; lia.
Defined.

Example codec_round_trip_example :
  Codec.formatAmountToHex true "0.00000000001"
  = Some "0x0000000000000000000000000000000000000000000000000000000000989680"
  /\ Codec.formatHexToAmount
       "0x0000000000000000000000000000000000000000000000000000000000989680"
     = Some "0.00000000001"
  /\ Codec.canonical "0.00000000001" = "0.00000000001"
  /\ (Codec.formatAmountToHex true "1231243.1200" ≫= Codec.formatHexToAmount)
     = Some "1231243.12".
Proof. repeat split; vm_compute; reflexivity. Qed.

(** ** Part VII. Properties of the command-line helpers *)

Section CliFacts.
Import Js Cli.
Context {E O Network J : Type}.

#[local] Abbreviation thrown := (Cli.thrown E).
#[local] Abbreviation World := (Cli.World O).
#[local] Abbreviation M := (Js.M World thrown).

Variable runCommand : string -> M string.
Variable getRPCForNetwork : Network -> string.
Variable getIPFSForNetwork : Network -> string.
Variable resolve : string -> string.
Variable describe : thrown -> string.
Variable parseKeyPairs : string -> option (list KeyPair).
Variable JSON_parse : string -> option J.
Variable JSON_stringify : J -> string.
Variable spread : J -> J -> J.

#[local] Abbreviation callCreate :=
  (Cli.callCreate runCommand getRPCForNetwork getIPFSForNetwork
     JSON_parse JSON_stringify spread).
#[local] Abbreviation sendTokens :=
  (Cli.sendTokens runCommand getRPCForNetwork getIPFSForNetwork).
#[local] Abbreviation callProgram :=
  (Cli.callProgram runCommand getRPCForNetwork getIPFSForNetwork).
#[local] Abbreviation registerProgram :=
  (Cli.registerProgram runCommand getRPCForNetwork getIPFSForNetwork describe).
#[local] Abbreviation getSecretKeyFromKeyPairFile :=
  (Cli.getSecretKeyFromKeyPairFile runCommand resolve describe parseKeyPairs).
#[local] Abbreviation getAddressFromKeyPairFile :=
  (Cli.getAddressFromKeyPairFile (O := O) resolve describe parseKeyPairs).
#[local] Abbreviation getSecretKey :=
  (Cli.getSecretKey runCommand resolve describe parseKeyPairs).

Ltac guard_fires :=
  change (falsy "") with true;
  repeat match goal with |- context [falsy ?x] => destruct (falsy x) end;
  eexists; reflexivity.

Ltac guard_passes :=
  unfold falsy;
  repeat match goal with
  | H : ?x <> "" |- _ => apply String.eqb_neq in H; rewrite H; clear H
  end;
  cbn [orb].

(** X14. Validation comes before any effect, and it asks for the required
    arguments only. When one of its required arguments is the empty
    string, [callCreate], [sendTokens] and [callProgram] throw an [Error]
    and leave the environment, the files and the console as they were, and
    no command is run. When the required arguments are all non-empty the
    guard lets the call through whatever the network and, for
    [callCreate], the optional extra inputs are: [sendTokens] and
    [callProgram] run their command in the environment of the network,
    and [callCreate] builds its inputs and does the same, or throws what
    [JSON.parse] throws, before any effect. *)
Theorem missing_argument_rejected :
  (forall programAddress symbol name initializedSupply totalSupply
          recipientAddress network secretKey inputs w,
     programAddress = "" \/ symbol = "" \/ name = ""
     \/ initializedSupply = "" \/ recipientAddress = ""
     \/ totalSupply = "" \/ secretKey = "" ->
     exists message,
       callCreate programAddress symbol name initializedSupply totalSupply
         recipientAddress network secretKey inputs w
       = (Throw (Error message), w))
  /\ (forall programAddress recipientAddress amount secretKey network w,
     programAddress = "" \/ recipientAddress = "" \/ amount = ""
     \/ secretKey = "" ->
     exists message,
       sendTokens programAddress recipientAddress amount secretKey network w
       = (Throw (Error message), w))
  /\ (forall programAddress op inputs network secretKey w,
     programAddress = "" \/ op = "" \/ inputs = "" \/ secretKey = "" ->
     exists message,
       callProgram programAddress op inputs network secretKey w
       = (Throw (Error message), w))
  /\ (forall programAddress symbol name initializedSupply totalSupply
          recipientAddress network secretKey inputs w,
     programAddress <> "" -> symbol <> "" -> name <> "" ->
     initializedSupply <> "" -> recipientAddress <> "" ->
     totalSupply <> "" -> secretKey <> "" ->
     let text :=
       template
         ["{"; dq; "name"; dq; ":"; dq; name; dq; ",";
          dq; "symbol"; dq; ":"; dq; symbol; dq; ",";
          dq; "initializedSupply"; dq; ":"; dq; initializedSupply; dq; ",";
          dq; "totalSupply"; dq; ":"; dq; totalSupply; dq; ",";
          dq; "to"; dq; ":"; dq; recipientAddress; dq; "}"] in
     let run inputsStr :=
       runCommand
         (template
            ["./build/lasr_cli wallet call --from-secret-key --secret-key ";
             dq; secretKey; dq; " --op "; dq; "create"; dq;
             " --inputs '"; inputsStr; "' --to "; dq; programAddress; dq;
             " --content-namespace "; dq; programAddress; dq])
         (configured (getRPCForNetwork network) (getIPFSForNetwork network) w) in
     callCreate programAddress symbol name initializedSupply totalSupply
       recipientAddress network secretKey inputs w
     = match JSON_parse text with
       | None => (Throw (SyntaxError text), w)
       | Some parsed =>
           let inputsStr := JSON_stringify parsed in
           match inputs with
           | None => run inputsStr
           | Some extra =>
               if String.eqb extra "" then run inputsStr
               else
                 match JSON_parse inputsStr with
                 | None => (Throw (SyntaxError inputsStr), w)
                 | Some parsed =>
                     match JSON_parse extra with
                     | None => (Throw (SyntaxError extra), w)
                     | Some parsedInputs =>
                         run (JSON_stringify (spread parsed parsedInputs))
                     end
                 end
           end
       end)
  /\ (forall programAddress recipientAddress amount secretKey network w,
     programAddress <> "" -> recipientAddress <> "" -> amount <> "" ->
     secretKey <> "" ->
     sendTokens programAddress recipientAddress amount secretKey network w
     = runCommand
         (template
            ["./build/lasr_cli wallet send --to "; recipientAddress;
             " -c "; programAddress; " --value "; amount;
             " -u verse --from-secret-key --secret-key "; dq; secretKey; dq])
         (configured (getRPCForNetwork network) (getIPFSForNetwork network) w))
  /\ (forall programAddress op inputs network secretKey w,
     programAddress <> "" -> op <> "" -> inputs <> "" -> secretKey <> "" ->
     callProgram programAddress op inputs network secretKey w
     = runCommand
         (template
            ["./build/lasr_cli wallet call --from-secret-key --secret-key ";
             dq; secretKey; dq; " --op "; op; " --inputs '"; inputs;
             "' --to "; programAddress; " --content-namespace ";
             programAddress])
         (configured (getRPCForNetwork network) (getIPFSForNetwork network) w)).
Proof.
  split; [| split; [| split; [| split; [| split]]]].
  - intros pa sy na ini tot rec net key inputs w Hmissing.
    unfold Cli.callCreate.
    destruct Hmissing as [->|[->|[->|[->|[->|[->| ->]]]]]]; guard_fires.
  - intros pa rec am key net w Hmissing. unfold Cli.sendTokens.
    destruct Hmissing as [->|[->|[->| ->]]]; guard_fires.
  - intros pa op inputs net key w Hmissing. unfold Cli.callProgram.
    destruct Hmissing as [->|[->|[->| ->]]]; guard_fires.
  - intros pa sy na ini tot rec net key inputs w Hpa Hsy Hna Hini Hrec Htot Hkey
      text run.
    unfold Cli.callCreate. guard_passes. fold text.
    unfold parse_json, bind, setenv, ret, throw.
    destruct (JSON_parse text) as [parsed|]; [| reflexivity].
    destruct inputs as [extra|]; [| reflexivity].
    unfold falsy. destruct (String.eqb extra ""); [reflexivity |].
    destruct (JSON_parse (JSON_stringify parsed)) as [parsed'|]; [| reflexivity].
    destruct (JSON_parse extra) as [parsedInputs|]; reflexivity.
  - intros pa rec am key net w Hpa Hrec Ham Hkey.
    unfold Cli.sendTokens. guard_passes. reflexivity.
  - intros pa op inputs net key w Hpa Hop Hinputs Hkey.
    unfold Cli.callProgram. guard_passes. reflexivity.
Qed.

(** X15. [registerProgram] wraps every failure and nothing else. It runs
    its command in the environment of the network; when the command is
    rejected with [e], [registerProgram] throws an [Error] whose message is
    ["Failed to register program: "] followed by the text of [e]; when the
    command returns, so does [registerProgram], with the same output; and
    whatever [registerProgram] throws is such an [Error], made from the
    rejection of its command. *)
Theorem registerProgram_wraps cid secretKey network w :
  let command :=
    template
      ["./build/lasr_cli wallet register-program --from-secret-key --secret-key ";
       dq; secretKey; dq; " --cid "; dq; cid; dq] in
  let w0 :=
    configured (getRPCForNetwork network) (getIPFSForNetwork network) w in
  (forall e w',
     runCommand command w0 = (Throw e, w') ->
     registerProgram cid secretKey network w
     = (Throw (Error (template ["Failed to register program: "; describe e])),
        w'))
  /\ (forall out w',
     runCommand command w0 = (Return out, w') ->
     registerProgram cid secretKey network w = (Return out, w'))
  /\ (forall v w',
     registerProgram cid secretKey network w = (Throw v, w') ->
     exists e,
       runCommand command w0 = (Throw e, w')
       /\ v = Error (template ["Failed to register program: "; describe e])).
Proof.
  intros command w0.
  assert (Hrun : registerProgram cid secretKey network w
                 = match runCommand command w0 with
                   | (Throw e, w') =>
                       (Throw (Error (template ["Failed to register program: ";
                                                describe e])), w')
                   | done => done
                   end).
  { unfold Cli.registerProgram, try_catch, bind, setenv, throw.
    fold command. by destruct (runCommand command _) as [[out|e] w1]. }
  rewrite Hrun. repeat split.
  - intros e w' ->. reflexivity.
  - intros out w' ->. reflexivity.
  - intros v w'.
    destruct (runCommand command w0) as [[out|e] w1]; [discriminate |].
    intros [= <- <-]. by exists e.
Qed.

(** X16. A secret key that is given is returned as it is: [getSecretKey]
    with a non-empty [secretKey] reads no file, runs no command and writes
    nothing, whatever [secretKeyPath] is. *)
Theorem getSecretKey_given secretKeyPath key w :
  key <> "" -> getSecretKey secretKeyPath (Some key) w = (Return key, w).
Proof.
  intros Hkey. unfold Cli.getSecretKey, falsy.
  apply String.eqb_neq in Hkey. by rewrite Hkey.
Qed.

(** X17. A key pair file that can be read and parsed is answered from the
    file alone: the secret key, or the address, of its first pair, and the
    empty string when it holds no pair. Nothing is thrown for a file
    without pairs, no command is run, and only one line is logged. *)
Theorem keypair_file_read keypairFilePath content keyPairs w :
  files w !! resolve keypairFilePath = Some content ->
  parseKeyPairs content = Some keyPairs ->
  getSecretKeyFromKeyPairFile keypairFilePath w
  = (Return (match keyPairs with first :: _ => secret_key first | [] => "" end),
     printed (Log "Getting secret key from keypair file") w)
  /\ getAddressFromKeyPairFile keypairFilePath w
    = (Return (match keyPairs with first :: _ => address first | [] => "" end),
       printed (Log "Getting address from keypair file") w).
Proof.
  intros Hfile Hparse.
  unfold Cli.getSecretKeyFromKeyPairFile, Cli.getAddressFromKeyPairFile,
    try_catch, bind, console_log, readFile, parse_key_pairs. cbn.
  rewrite Hfile, Hparse. by destruct keyPairs.
Qed.

(** X18. A missing key pair file: [getAddressFromKeyPairFile] throws the
    read error after logging it and runs no command, whereas
    [getSecretKeyFromKeyPairFile] first runs [lasr_cli wallet new --save]
    and, when that leaves a file with a key pair, returns its first secret
    key. *)
Theorem keypair_file_missing keypairFilePath w out w2 content first rest :
  let w1 := printed (Log "Getting secret key from keypair file") w in
  files w !! resolve keypairFilePath = None ->
  runCommand "./build/lasr_cli wallet new --save" w1 = (Return out, w2) ->
  files w2 !! resolve keypairFilePath = Some content ->
  parseKeyPairs content = Some (first :: rest) ->
  getAddressFromKeyPairFile keypairFilePath w
  = (Throw (NoEntry (resolve keypairFilePath)),
     printed (Err (template ["Failed to retrieve the secret key: ";
                             describe (NoEntry (resolve keypairFilePath))]))
       (printed (Log "Getting address from keypair file") w))
  /\ getSecretKeyFromKeyPairFile keypairFilePath w
    = (Return (secret_key first),
       printed (Log "Wallet initialized and keypair.json created at ./.lasr/wallet/keypair.json")
         w2).
Proof.
  intros w1 Hmissing Hnew Hfile Hparse. subst w1. split.
  - unfold Cli.getAddressFromKeyPairFile, try_catch, bind, console_log,
      console_error, readFile. cbn. by rewrite Hmissing.
  - unfold Cli.getSecretKeyFromKeyPairFile, initializeWallet, try_catch, bind,
      console_log, readFile, parse_key_pairs. cbn. rewrite Hmissing.
    unfold printed in Hnew. rewrite Hnew. cbn. by rewrite Hfile, Hparse.
Qed.

(** X19. When the wallet cannot be initialised either, the rejection of
    the command is what [getSecretKeyFromKeyPairFile] throws, after
    logging it. *)
Theorem keypair_file_unrecoverable keypairFilePath w e w2 :
  let w1 := printed (Log "Getting secret key from keypair file") w in
  files w !! resolve keypairFilePath = None ->
  runCommand "./build/lasr_cli wallet new --save" w1 = (Throw e, w2) ->
  getSecretKeyFromKeyPairFile keypairFilePath w
  = (Throw e,
     printed (Err (template ["Failed to retrieve the secret key: "; describe e]))
       w2).
Proof.
  intros w1 Hmissing Hnew. subst w1.
  unfold Cli.getSecretKeyFromKeyPairFile, initializeWallet, try_catch, bind,
    console_log, console_error, readFile. cbn. rewrite Hmissing.
  unfold printed in Hnew. by rewrite Hnew.
Qed.

(** X20. Without a secret key given, and with a wallet key pair file that
    exists and parses, [getSecretKey] returns the secret key of the first
    pair of that file (the empty string if it holds none) and runs no
    command, whatever [secretKeyPath] is. *)
Theorem getSecretKey_from_wallet secretKeyPath content keyPairs w :
  files w !! resolve keypair_json = Some content ->
  parseKeyPairs content = Some keyPairs ->
  getSecretKey secretKeyPath None w
  = (Return (match keyPairs with first :: _ => secret_key first | [] => "" end),
     printed (Log "Getting secret key from keypair file")
       (printed (Log (template [esc; "[0;33mUsing existing keypair..."; esc; "[0m"]))
          w)).
Proof.
  intros Hfile Hparse.
  unfold Cli.getSecretKey, Cli.getSecretKeyFromKeyPairFile, try_catch, bind,
    existsSync, console_log, readFile, parse_key_pairs. cbn.
  rewrite Hfile. rewrite bool_decide_eq_true_2 by (by eexists). cbn.
  rewrite Hfile, Hparse. by destruct keyPairs.
Qed.

End CliFacts.

(** Concrete runs of the helpers on the sample machine. *)
Section CliExamples.
Import Js Cli.

Lemma missing_argument_rejected_witness :
  (("0xprogram" = "" \/ "0xrecipient" = "" \/ "" = "" \/ "5f2b" = "")
   /\ exists message,
       Cli.sendTokens Sample.runCommand Sample.url Sample.url
         "0xprogram" "0xrecipient" "" "5f2b" true Sample.empty
       = (Throw (Error message), Sample.empty))
  /\ (("0xprogram" <> "" /\ "0xrecipient" <> "" /\ "10" <> "" /\ "5f2b" <> "")
      /\ Cli.sendTokens Sample.runCommand Sample.url Sample.url
           "0xprogram" "0xrecipient" "10" "5f2b" true Sample.empty
         = (Throw (Rejected tt),
            configured "http://stable" "http://stable" Sample.empty)).
Proof.
  split.
  - split; [right; right; left; reflexivity |].
    apply (proj1 (proj2 (missing_argument_rejected (J := unit) Sample.runCommand
                           Sample.url Sample.url (fun _ => None)
                           (fun _ => "") (fun a _ => a)))).
    right; right; left; reflexivity.
  - split; [repeat split; discriminate |].
    rewrite (proj1 (proj2 (proj2 (proj2 (proj2
               (missing_argument_rejected (J := unit) Sample.runCommand
                  Sample.url Sample.url (fun _ => None)
                  (fun _ => "") (fun a _ => a))))))
               "0xprogram" "0xrecipient" "10" "5f2b" true Sample.empty);
      [reflexivity | discriminate ..].
Defined.

Lemma registerProgram_wraps_witness :
  let w' := mkWorld unit
              (<["VIPFS_ADDRESS" := "http://test"]>
                 (<["LASR_RPC_URL" := "http://test"]> ∅)) ∅ [] tt in
  let command :=
    template
      ["./build/lasr_cli wallet register-program --from-secret-key --secret-key ";
       dq; "5f2b"; dq; " --cid "; dq; "bafy"; dq] in
  Cli.registerProgram Sample.runCommand Sample.url Sample.url Sample.describe
    "bafy" "5f2b" false Sample.empty
  = (Throw (Error "Failed to register program: command failed"), w')
  /\ exists e : thrown unit,
      Sample.runCommand command
        (configured "http://test" "http://test" Sample.empty)
      = (Throw e, w')
      /\ (Error "Failed to register program: command failed" : thrown unit)
         = Error (template ["Failed to register program: "; Sample.describe e]).
Proof.
  split; [reflexivity |].
  apply (proj2 (proj2 (registerProgram_wraps Sample.runCommand Sample.url
                         Sample.url Sample.describe "bafy" "5f2b" false
                         Sample.empty))
           (Error "Failed to register program: command failed")
           (mkWorld unit
              (<["VIPFS_ADDRESS" := "http://test"]>
                 (<["LASR_RPC_URL" := "http://test"]> ∅)) ∅ [] tt)).
  reflexivity.
Defined.

Lemma getSecretKey_given_witness :
  "5f2b" <> ""
  /\ Cli.getSecretKey Sample.runCommand Sample.resolve Sample.describe
       Sample.parseKeyPairs (Some "key.json") (Some "5f2b") Sample.empty
     = (Return "5f2b", Sample.empty).
Proof.
  split; [discriminate |].
  apply (getSecretKey_given Sample.runCommand Sample.resolve Sample.describe
           Sample.parseKeyPairs (Some "key.json") "5f2b" Sample.empty).
  discriminate.
Defined.

Lemma keypair_file_read_witness :
  let w := Sample.with_wallet "[]" in
  files w !! Sample.resolve keypair_json = Some "[]"
  /\ Sample.parseKeyPairs "[]" = Some []
  /\ Cli.getSecretKeyFromKeyPairFile Sample.runCommand Sample.resolve
       Sample.describe Sample.parseKeyPairs keypair_json w
     = (Return "", printed (Log "Getting secret key from keypair file") w)
  /\ Cli.getAddressFromKeyPairFile Sample.resolve Sample.describe
       Sample.parseKeyPairs keypair_json w
     = (Return "", printed (Log "Getting address from keypair file") w).
Proof.
  split; [reflexivity |]. split; [reflexivity |].
  apply (keypair_file_read Sample.runCommand Sample.resolve Sample.describe
           Sample.parseKeyPairs keypair_json "[]" [] (Sample.with_wallet "[]"));
    reflexivity.
Defined.

Lemma keypair_file_missing_witness :
  let w1 := printed (Log "Getting secret key from keypair file") Sample.empty in
  let w2 := mkWorld unit ∅ {[ Sample.resolve keypair_json := "[pair]" ]}
              [Log "Getting secret key from keypair file"] tt in
  files Sample.empty !! Sample.resolve keypair_json = None
  /\ Sample.runCommand "./build/lasr_cli wallet new --save" w1
     = (Return "saved", w2)
  /\ Cli.getSecretKeyFromKeyPairFile Sample.runCommand Sample.resolve
       Sample.describe Sample.parseKeyPairs keypair_json Sample.empty
     = (Return "5f2b",
        printed (Log "Wallet initialized and keypair.json created at ./.lasr/wallet/keypair.json")
          w2).
Proof.
  split; [reflexivity |]. split; [reflexivity |].
  apply (keypair_file_missing Sample.runCommand Sample.resolve Sample.describe
           Sample.parseKeyPairs keypair_json Sample.empty "saved"
           (mkWorld unit ∅ {[ Sample.resolve keypair_json := "[pair]" ]}
              [Log "Getting secret key from keypair file"] tt)
           "[pair]" Sample.pair []); reflexivity.
Defined.

Lemma keypair_file_unrecoverable_witness :
  let broken : string -> Js.M (World unit) (thrown unit) string :=
    fun _ w => (Throw (Rejected tt), w) in
  let w1 := printed (Log "Getting secret key from keypair file") Sample.empty in
  files Sample.empty !! Sample.resolve keypair_json = None
  /\ broken "./build/lasr_cli wallet new --save" w1 = (Throw (Rejected tt), w1)
  /\ Cli.getSecretKeyFromKeyPairFile broken Sample.resolve Sample.describe
       Sample.parseKeyPairs keypair_json Sample.empty
     = (Throw (Rejected tt),
        printed (Err "Failed to retrieve the secret key: command failed") w1).
Proof.
  split; [reflexivity |]. split; [reflexivity |].
  apply (keypair_file_unrecoverable (fun _ w => (Throw (Rejected tt), w))
           Sample.resolve Sample.describe Sample.parseKeyPairs keypair_json
           Sample.empty (Rejected tt)
           (printed (Log "Getting secret key from keypair file") Sample.empty));
    reflexivity.
Defined.

Lemma getSecretKey_from_wallet_witness :
  let w := Sample.with_wallet "[pair]" in
  files w !! Sample.resolve keypair_json = Some "[pair]"
  /\ Sample.parseKeyPairs "[pair]" = Some [Sample.pair]
  /\ fst (Cli.getSecretKey Sample.runCommand Sample.resolve Sample.describe
            Sample.parseKeyPairs None None w)
     = Return "5f2b".
Proof.
  split; [reflexivity |]. split; [reflexivity |].
  rewrite (getSecretKey_from_wallet Sample.runCommand Sample.resolve
             Sample.describe Sample.parseKeyPairs None "[pair]" [Sample.pair]
             (Sample.with_wallet "[pair]")); reflexivity.
Defined.

End CliExamples.
